(** * recommendtf: identity index, embedding store, ranking and serialization

    A shallow embedding of [src/storage.ts], [src/memory-storage.ts] and
    [src/recommendation.ts].  Objects that the TypeScript code mutates are
    modelled by explicit state passing; the TensorFlow.js numeric engine,
    which is not part of the repository, is an interface ([NumericEngine])
    that the model is parametric in.  A method runs from its call to its
    return or rejection: an [await] is no point of interleaving here, as
    [fit] is not reentrant and the timers it awaits change nothing.  The
    loops whose step is the configured batch size take fuel, since they do
    not end for a batch size of 0. *)

From Stdlib Require Import ZArith Sorting.Sorted Sorting.Permutation.
From stdpp Require Import base option list strings gmap fin_maps.

Set Warnings "-clear-no-such-hyp".

(* ===================================================================== *)
(** * Identifiers ([storage.ts]) *)
(* ===================================================================== *)

(** [export type Id = string | number].  A [Map] compares keys with
    SameValueZero, so the string ["1"] and the number [1] are different
    keys. *)
Inductive Id : Type :=
  | IdStr (s : string)
  | IdNum (n : Z).

#[global] Instance Id_eq_dec : EqDecision Id.
Proof. solve_decision. Defined.

Definition Id_to_sum (i : Id) : string + Z :=
  match i with IdStr s => inl s | IdNum n => inr n end.

Definition Id_of_sum (x : string + Z) : Id :=
  match x with inl s => IdStr s | inr n => IdNum n end.

#[global] Instance Id_countable : Countable Id.
Proof.
  refine (inj_countable' Id_to_sum Id_of_sum _).
  intros []; reflexivity.
Defined.

(* ===================================================================== *)
(** * JavaScript arrays and maps *)
(* ===================================================================== *)

Module Js.

(** An array of identifiers.  A hole, and the [undefined] read out of one
    or past the end, is [None]. *)
Definition array_get {A} (a : list (option A)) (i : nat) : option A :=
  mjoin (a !! i).

(** [a[i] = v]: overwrites inside the array; at or past the end the array
    is extended, the skipped positions becoming holes. *)
Definition array_set {A} (a : list (option A)) (i : nat) (v : A)
  : list (option A) :=
  if decide (i < length a) then <[i := Some v]> a
  else a ++ replicate (i - length a) None ++ [Some v].

(** [new Map(entries)]: entries are inserted in order, a later entry for
    the same key replaces the earlier one. *)
Definition map_from_entries `{Countable K} {V} (es : list (K * V))
  : gmap K V :=
  foldl (fun m e => <[e.1 := e.2]> m) ∅ es.

(** [Array.from(m.entries())]. *)
Definition map_entries `{Countable K} {V} (m : gmap K V) : list (K * V) :=
  map_to_list m.

(** [a.slice(0, count)] for an integer [count] (ToIntegerOrInfinity has
    been applied): a negative [count] is relative to the end. *)
Definition slice0 {A} (a : list A) (count : Z) : list A :=
  let len := Z.of_nat (length a) in
  let final := if (count <? 0)%Z then Z.max (len + count) 0
               else Z.min count len in
  take (Z.to_nat final) a.

(** [a.slice(i, j)] for non-negative integers [i], [j]. *)
Definition slice {A} (a : list A) (i j : nat) : list A :=
  take (j - i) (drop i a).

(** [a.sort(comparefn)], with [Lt] for a negative result of
    [comparefn], [Gt] for a positive one and [Eq] for zero or NaN.  The
    sort is stable, and for a consistent [comparefn] ECMAScript fixes its
    result; an insertion sort computes it. *)
Fixpoint sort_insert {A} (comparefn : A -> A -> comparison) (x : A)
    (l : list A) : list A :=
  match l with
  | [] => [x]
  | y :: l' =>
      match comparefn x y with
      | Gt => y :: sort_insert comparefn x l'
      | _ => x :: l
      end
  end.

Fixpoint sort {A} (comparefn : A -> A -> comparison) (l : list A)
  : list A :=
  match l with
  | [] => []
  | x :: l' => sort_insert comparefn x (sort comparefn l')
  end.

End Js.

(* ===================================================================== *)
(** * The in-memory identity index ([memory-storage.ts]) *)
(* ===================================================================== *)

(** [SerializableStorageData] *)
Record SerializableStorageData : Type := {
  sd_userMap : list (Id * nat);
  sd_entityMap : list (Id * nat);
  sd_reverseUserMap : list (option Id);
  sd_reverseEntityMap : list (option Id)
}.

(** The four private fields of [class InMemoryStorage]. *)
Record InMemoryStorage : Type := {
  userMap : gmap Id nat;
  entityMap : gmap Id nat;
  reverseUserMap : list (option Id);
  reverseEntityMap : list (option Id)
}.

Module Storage.

(** [new InMemoryStorage()] *)
Definition empty : InMemoryStorage :=
  {| userMap := ∅; entityMap := ∅;
     reverseUserMap := []; reverseEntityMap := [] |}.

Definition getUserIndex (id : Id) (st : InMemoryStorage) : option nat :=
  userMap st !! id.

Definition getOrCreateUserIndex (id : Id) (st : InMemoryStorage)
  : nat * InMemoryStorage :=
  match userMap st !! id with
  | Some idx => (idx, st)
  | None =>
      let idx := size (userMap st) in
      (idx,
       {| userMap := <[id := idx]> (userMap st);
          entityMap := entityMap st;
          reverseUserMap := Js.array_set (reverseUserMap st) idx id;
          reverseEntityMap := reverseEntityMap st |})
  end.

Definition getEntityIndex (id : Id) (st : InMemoryStorage) : option nat :=
  entityMap st !! id.

Definition getOrCreateEntityIndex (id : Id) (st : InMemoryStorage)
  : nat * InMemoryStorage :=
  match entityMap st !! id with
  | Some idx => (idx, st)
  | None =>
      let idx := size (entityMap st) in
      (idx,
       {| userMap := userMap st;
          entityMap := <[id := idx]> (entityMap st);
          reverseUserMap := reverseUserMap st;
          reverseEntityMap := Js.array_set (reverseEntityMap st) idx id |})
  end.

Definition getAllUsers (st : InMemoryStorage) : list (option Id) :=
  reverseUserMap st.

Definition getAllEntities (st : InMemoryStorage) : list (option Id) :=
  reverseEntityMap st.

Definition exportData (st : InMemoryStorage) : SerializableStorageData :=
  {| sd_userMap := Js.map_entries (userMap st);
     sd_entityMap := Js.map_entries (entityMap st);
     sd_reverseUserMap := reverseUserMap st;
     sd_reverseEntityMap := reverseEntityMap st |}.

(** [importData] replaces all four fields. *)
Definition importData (data : SerializableStorageData)
  : InMemoryStorage :=
  {| userMap := Js.map_from_entries (sd_userMap data);
     entityMap := Js.map_from_entries (sd_entityMap data);
     reverseUserMap := sd_reverseUserMap data;
     reverseEntityMap := sd_reverseEntityMap data |}.

(** One call made on the index by a client. *)
Inductive call : Type :=
  | CreateUser (id : Id)
  | CreateEntity (id : Id).

Definition step (st : InMemoryStorage) (c : call) : InMemoryStorage :=
  match c with
  | CreateUser id => (getOrCreateUserIndex id st).2
  | CreateEntity id => (getOrCreateEntityIndex id st).2
  end.

Definition run (cs : list call) (st : InMemoryStorage) : InMemoryStorage :=
  foldl step st cs.

End Storage.

(* ===================================================================== *)
(** * The numeric engine (TensorFlow.js) *)
(* ===================================================================== *)

(** What the model needs of the engine.  A [number] is a JavaScript
    number: the numbers of a document, a rating, a learning rate, a score.
    The elements of a tensor are [float32]s: building a tensor from numbers
    rounds each one ([fround]), reading a tensor into an array gives the
    numbers that its elements are ([widen]), so that a number read from a
    tensor is rounded to the element it was read from ([fround_widen]).
    [num_sub] is the subtraction of the comparator in [rankTop], and
    [num_sign] reads the sign of its result the way [Array.prototype.sort]
    does: [Lt] for a negative number, [Gt] for a positive one, [Eq] for
    zero and for NaN.  [dot] is the product of a matrix row with a vector,
    read as a number, [randomNormalSample] the stream of samples that
    [tf.randomNormal] draws from, [adam] the optimizer for a learning rate.

    [minimize o U E u e d r] is one step of the optimizer [o] on the loss
    [(r - U[u] . E[e])^2] over rows of width [d].  The step assigns to the
    embedding variables and changes the state of the optimizer; it then
    returns ([true]) or rejects ([false]), as the Adam optimizer does when
    its accumulators, which it creates at its first step, do not fit a
    variable that has been replaced since.

    [tensor2d_ill_sized] is what [tf.tensor2d] makes of a nested array
    that holds another number of values than its number of rows times the
    length of its first row: the engine does not compare the two, and what
    becomes of such a tensor is the backend's ([None]: it throws when it
    is given the values; otherwise it keeps them, and throws or not when
    the tensor is read).  The statements below that read a tensor loaded
    from a document are about arrays that hold the right number of
    values. *)
Class NumericEngine : Type := {
  number : Type;
  float32 : Type;
  fround : number -> float32;
  widen : float32 -> number;
  fround_widen : forall x, fround (widen x) = x;
  num_sub : number -> number -> number;
  num_sign : number -> comparison;
  num_is_nan : number -> bool;
  num_one : number;
  num_default_learningRate : number;
  dot : list float32 -> list float32 -> number;
  randomNormalSample : nat -> float32;
  tensor2d_ill_sized : list (list number) -> option (list (list float32));
  Optimizer : Type;
  adam : number -> Optimizer;
  minimize : Optimizer -> list (list float32) -> list (list float32) ->
             nat -> nat -> nat -> number ->
             Optimizer * list (list float32) * list (list float32) * bool
}.

(** The comparator is consistent on numbers that are not NaN. *)
Class NumberOrder (NE : NumericEngine) : Prop := {
  sign_sub_refl : forall x,
    num_is_nan x = false -> num_sign (num_sub x x) = Eq;
  sign_sub_antisym : forall x y,
    num_is_nan x = false -> num_is_nan y = false ->
    num_sign (num_sub x y) = CompOpp (num_sign (num_sub y x));
  sign_sub_trans : forall x y z,
    num_is_nan x = false -> num_is_nan y = false -> num_is_nan z = false ->
    num_sign (num_sub x y) <> Lt -> num_sign (num_sub y z) <> Lt ->
    num_sign (num_sub x z) <> Lt
}.

(** An optimizer step assigns to each variable a value of its own shape,
    whether it returns or rejects. *)
Class OptimizerShape (NE : NumericEngine) : Prop := {
  minimize_shape : forall o U E u e d r o' U' E' ok,
    minimize o U E u e d r = (o', U', E', ok) ->
    length <$> U' = length <$> U /\ length <$> E' = length <$> E
}.

(* ===================================================================== *)
(** * Outcomes of calls *)
(* ===================================================================== *)

Inductive Error : Type :=
  | NotInitialized   (* 'Model must be initialized before export. ...' *)
  | TypeError        (* a property or method of [undefined] is used *)
  | EngineError.     (* the engine rejects an argument, a shape or an index *)

(** A call returns, rejects, or is still running when the fuel of the
    model's loops is used up. *)
Inductive Outcome (A : Type) : Type :=
  | Return (a : A)
  | Throw (e : Error)
  | OutOfFuel.
Arguments Return {A} a.
Arguments Throw {A} e.
Arguments OutOfFuel {A}.

#[global] Instance Outcome_ret : MRet Outcome := fun A a => Return a.
#[global] Instance Outcome_bind : MBind Outcome := fun A B f m =>
  match m with
  | Return a => f a
  | Throw e => Throw e
  | OutOfFuel => OutOfFuel
  end.

Definition require {A} (o : option A) (e : Error) : Outcome A :=
  match o with Some a => Return a | None => Throw e end.

(* ===================================================================== *)
(** * Tensors of rank 2, as far as the model uses them *)
(* ===================================================================== *)

Section Tensors.
Context {NE : NumericEngine}.

(** A rank-2 tensor is the list of its rows (the shape [0, d] does not
    record [d]). *)
Definition Matrix : Type := list (list float32).

(** [tf.zeros([0, d])] *)
Definition tf_zeros0 : Matrix := [].

(** The shape that [tf.tensor2d(values)] infers from a nested array: the
    length of the array and the length of its first element. *)
Definition inferred_rows (values : list (list number)) : nat :=
  length values.

Definition inferred_columns (values : list (list number)) : nat :=
  length (default [] (head values)).

(** The array holds as many numbers as a tensor of the inferred shape. *)
Definition well_sized (values : list (list number)) : Prop :=
  length (mjoin values) = inferred_rows values * inferred_columns values.

#[global] Instance well_sized_dec values : Decision (well_sized values) :=
  decide (length (mjoin values)
          = inferred_rows values * inferred_columns values).

(** The tensor of the inferred shape over the numbers of the array, which
    are flattened in order and rounded to [float32]. *)
Definition tensor_rows (values : list (list number)) : Matrix :=
  reshape (replicate (inferred_rows values) (inferred_columns values))
    (fround <$> mjoin values).

(** [tf.tensor2d(values)] without a shape argument.  From [[]] it infers
    the rank-1 shape [[0]] and throws ('tensor2d() requires shape to be
    provided when `values` are a flat/TypedArray').  Otherwise it builds
    the tensor of the inferred shape from the flattened, rounded numbers;
    rows of unequal length are not rejected, and come out in rows of the
    length of the first one when the number of values fits. *)
Definition tf_tensor2d (values : list (list number)) : Outcome Matrix :=
  match values with
  | [] => Throw EngineError
  | _ :: _ =>
      if decide (well_sized values) then Return (tensor_rows values)
      else require (tensor2d_ill_sized values) EngineError
  end.

(** [t.array()]: the rows as nested arrays of numbers; a tensor of size 0
    (no row, or rows of width 0) is converted to [[]]. *)
Definition tf_array (t : Matrix) : list (list number) :=
  match t with
  | [] => []
  | r :: t' =>
      if length r =? 0 then []
      else (fun row : list float32 => widen <$> row) <$> (r :: t')
  end.

(** [tf.concat([a, b], 0)]: the widths must agree. *)
Definition tf_concat2 (a b : Matrix) : Outcome Matrix :=
  match a with
  | [] => Return b
  | r :: _ =>
      if forallb (fun r' => length r' =? length r) (a ++ b)
      then Return (a ++ b) else Throw EngineError
  end.

(** [t.slice([idx, 0], [1, d])]: the row must exist and have [d]
    columns at least. *)
Definition tf_slice_row (t : Matrix) (idx d : nat)
  : Outcome (list float32) :=
  match t !! idx with
  | Some row =>
      if decide (d <= length row) then Return (take d row)
      else Throw EngineError
  | None => Throw EngineError
  end.

(** [tf.matMul(t, vec.transpose()).reshape([-1])] for a [1 x d] tensor
    [vec]: the width of [t] must be [d]. *)
Definition tf_matMul_vec (t : Matrix) (vec : list float32)
  : Outcome (list number) :=
  if forallb (fun row => length row =? length vec) t
  then Return ((fun row => dot row vec) <$> t)
  else Throw EngineError.

(** The [rows x d] tensor that [tf.randomNormal([rows, d])] builds from
    the samples at positions [pos], [pos + 1], ... of the stream. *)
Definition normal_rows (pos rows d : nat) : Matrix :=
  (fun r => randomNormalSample <$> seq (pos + r * d) d) <$> seq 0 rows.

End Tensors.

(* ===================================================================== *)
(** * The recommender ([recommendation.ts]) *)
(* ===================================================================== *)

Section Recommender.
Context {NE : NumericEngine}.

(** The configuration of a model, as [export] writes it.  The code takes
    any number for the epoch count, the embedding size and the batch size;
    the development covers the whole numbers. *)
Record Config : Type := {
  cfg_epoch : nat;
  cfg_embeddingSize : nat;
  cfg_learningRate : number;
  cfg_batchSize : nat
}.

(** [interface SerializedModel] *)
Record SerializedModel : Type := {
  sm_config : Config;
  sm_userEmbeddings : list (list number);
  sm_entityEmbeddings : list (list number);
  sm_userMap : list (Id * nat);
  sm_entityMap : list (Id * nat);
  sm_reverseUserMap : list (option Id);
  sm_reverseEntityMap : list (option Id);
  sm_initialized : bool;
  sm_version : string
}.

(** [interface Interaction] *)
Record Interaction : Type := {
  user : Id;
  entity : Id;
  rating : option number
}.

(** [interface RecommendationOptions] ([disableIsNode] only sets an
    environment flag of the engine).  The constructor takes any number for
    [epoch], [embeddingSize] and [batchSize] and checks none of them; the
    development covers the whole numbers.  With a batch size that is not a
    whole number, or that is negative, the loops of [fit] step through
    other indices than the ones modelled here. *)
Record RecommendationOptions : Type := {
  opt_epoch : option nat;
  opt_embeddingSize : option nat;
  opt_learningRate : option number;
  opt_storage : option InMemoryStorage;
  opt_batchSize : option nat
}.

(** The fields of [class Recommendation].  The embedding variables are
    [undefined] ([None]) until they are first assigned. *)
Record Recommendation : Type := {
  storage : InMemoryStorage;
  userEmbeddings : option Matrix;
  entityEmbeddings : option Matrix;
  optimizer : Optimizer;
  embeddingSize : nat;
  learningRate : number;
  epoch : nat;
  batchSize : nat;
  _initialized : bool
}.

(** [new Recommendation(options)] *)
Definition new_Recommendation (options : RecommendationOptions)
  : Recommendation :=
  let lr := default num_default_learningRate (opt_learningRate options) in
  {| epoch := default 5 (opt_epoch options);
     embeddingSize := default 16 (opt_embeddingSize options);
     learningRate := lr;
     batchSize := default 1000 (opt_batchSize options);
     storage := default Storage.empty (opt_storage options);
     optimizer := adam lr;
     userEmbeddings := None;
     entityEmbeddings := None;
     _initialized := false |}.

(** [get initialized()] *)
Definition initialized (M : Recommendation) : bool := _initialized M.

Definition no_options : RecommendationOptions :=
  {| opt_epoch := None; opt_embeddingSize := None;
     opt_learningRate := None; opt_storage := None;
     opt_batchSize := None |}.

(** ** Methods that change [this]

    The state of a call is the receiver and the position in the engine's
    stream of random samples.  A call that rejects leaves the state as it
    was at the [throw]. *)
Record World : Type := {
  this : Recommendation;
  random_pos : nat
}.

Definition Eff (A : Type) : Type := World -> Outcome A * World.

Definition eff_ret {A} (a : A) : Eff A := fun w => (Return a, w).

Definition eff_bind {A B} (m : Eff A) (f : A -> Eff B) : Eff B :=
  fun w =>
    match m w with
    | (Return a, w') => f a w'
    | (Throw e, w') => (Throw e, w')
    | (OutOfFuel, w') => (OutOfFuel, w')
    end.

Definition eff_out_of_fuel {A} : Eff A := fun w => (OutOfFuel, w).
Definition get_this : Eff Recommendation := fun w => (Return (this w), w).
Definition set_this (f : Recommendation -> Recommendation) : Eff unit :=
  fun w => (Return tt, {| this := f (this w); random_pos := random_pos w |}).
Definition lift {A} (o : Outcome A) : Eff A := fun w => (o, w).

#[global] Instance Eff_ret : MRet Eff := @eff_ret.
#[global] Instance Eff_bind : MBind Eff := fun A B f m => eff_bind m f.

Definition set_storage (st : InMemoryStorage) (M : Recommendation)
  : Recommendation :=
  {| storage := st; userEmbeddings := userEmbeddings M;
     entityEmbeddings := entityEmbeddings M; optimizer := optimizer M;
     embeddingSize := embeddingSize M; learningRate := learningRate M;
     epoch := epoch M; batchSize := batchSize M;
     _initialized := _initialized M |}.

Definition set_userEmbeddings (U : Matrix) (M : Recommendation)
  : Recommendation :=
  {| storage := storage M; userEmbeddings := Some U;
     entityEmbeddings := entityEmbeddings M; optimizer := optimizer M;
     embeddingSize := embeddingSize M; learningRate := learningRate M;
     epoch := epoch M; batchSize := batchSize M;
     _initialized := _initialized M |}.

Definition set_entityEmbeddings (E : Matrix) (M : Recommendation)
  : Recommendation :=
  {| storage := storage M; userEmbeddings := userEmbeddings M;
     entityEmbeddings := Some E; optimizer := optimizer M;
     embeddingSize := embeddingSize M; learningRate := learningRate M;
     epoch := epoch M; batchSize := batchSize M;
     _initialized := _initialized M |}.

Definition set_optimizer (o : Optimizer) (M : Recommendation)
  : Recommendation :=
  {| storage := storage M; userEmbeddings := userEmbeddings M;
     entityEmbeddings := entityEmbeddings M; optimizer := o;
     embeddingSize := embeddingSize M; learningRate := learningRate M;
     epoch := epoch M; batchSize := batchSize M;
     _initialized := _initialized M |}.

Definition set_initialized (b : bool) (M : Recommendation)
  : Recommendation :=
  {| storage := storage M; userEmbeddings := userEmbeddings M;
     entityEmbeddings := entityEmbeddings M; optimizer := optimizer M;
     embeddingSize := embeddingSize M; learningRate := learningRate M;
     epoch := epoch M; batchSize := batchSize M;
     _initialized := b |}.

(** [for (let i = i0; i < n; i += step) acc = body(i, acc)].  With
    [step = 0] and [i0 < n] the loop does not end. *)
Fixpoint for_step {S : Type} (fuel n step i : nat)
    (body : nat -> S -> Eff S) (acc : S) : Eff S :=
  match fuel with
  | 0 => eff_out_of_fuel
  | S fuel' =>
      if decide (i < n)
      then acc' ← body i acc; for_step fuel' n step (i + step) body acc'
      else mret acc
  end.

(** [for (const x of xs) body(x)] *)
Fixpoint for_of {A : Type} (xs : list A) (body : A -> Eff unit)
  : Eff unit :=
  match xs with
  | [] => mret tt
  | x :: xs' => _ ← body x; for_of xs' body
  end.

(** [tf.randomNormal([rows, d])] *)
Definition tf_randomNormal (rows d : nat) : Eff Matrix :=
  fun w => (Return (normal_rows (random_pos w) rows d),
            {| this := this w; random_pos := random_pos w + rows * d |}).

Definition createEmbeddingsInBatches (fuel totalSize embeddingDim : nat)
  : Eff Matrix :=
  if decide (totalSize = 0) then mret tf_zeros0
  else
    M ← get_this;
    let batchSize' := batchSize M `min` totalSize in
    batches ← for_step fuel totalSize batchSize' 0
      (fun i batches =>
         let currentBatchSize := batchSize' `min` (totalSize - i) in
         batch ← tf_randomNormal currentBatchSize embeddingDim;
         mret (batches ++ [batch]))
      [];
    mret (concat batches).

Definition initializeEmbeddings (fuel : nat) : Eff unit :=
  M ← get_this;
  let numUsers := length (Storage.getAllUsers (storage M)) in
  let numEntities := length (Storage.getAllEntities (storage M)) in
  U ← createEmbeddingsInBatches fuel numUsers (embeddingSize M);
  _ ← set_this (set_userEmbeddings U);
  E ← createEmbeddingsInBatches fuel numEntities (embeddingSize M);
  _ ← set_this (set_entityEmbeddings E);
  set_this (set_initialized true).

(** The body of the inner loop of the registration phase. *)
Definition register (it : Interaction) : Eff unit :=
  _ ← set_this (fun M =>
         set_storage (Storage.getOrCreateUserIndex (user it) (storage M)).2 M);
  set_this (fun M =>
         set_storage
           (Storage.getOrCreateEntityIndex (entity it) (storage M)).2 M).

Definition registerUsersAndEntitiesInBatches (fuel : nat)
    (data : list Interaction) : Eff unit :=
  M ← get_this;
  for_step fuel (length data) (batchSize M) 0
    (fun i _ =>
       let batch := Js.slice data i (i + batchSize M) in
       for_of batch register)
    tt.

Definition resizeEmbeddingsIfNeeded (fuel : nat) : Eff unit :=
  M ← get_this;
  let userCount := length (Storage.getAllUsers (storage M)) in
  let entityCount := length (Storage.getAllEntities (storage M)) in
  oldUserEmbeddings ← lift (require (userEmbeddings M) TypeError);
  _ ← (if decide (length oldUserEmbeddings < userCount) then
         let newUserCount := userCount - length oldUserEmbeddings in
         newUsers ← createEmbeddingsInBatches fuel newUserCount
                      (embeddingSize M);
         U ← lift (tf_concat2 oldUserEmbeddings newUsers);
         set_this (set_userEmbeddings U)
       else mret tt);
  oldEntityEmbeddings ← lift (require (entityEmbeddings M) TypeError);
  if decide (length oldEntityEmbeddings < entityCount) then
    let newEntityCount := entityCount - length oldEntityEmbeddings in
    newEntities ← createEmbeddingsInBatches fuel newEntityCount
                    (embeddingSize M);
    E ← lift (tf_concat2 oldEntityEmbeddings newEntities);
    set_this (set_entityEmbeddings E)
  else mret tt.

(** The body of the inner loop of [trainEpochInBatches]: the two slices
    are the ones the loss closure takes; the step itself is the
    engine's, and what it has assigned stays assigned when it rejects. *)
Definition train (it : Interaction) : Eff unit :=
  M ← get_this;
  match Storage.getUserIndex (user it) (storage M),
        Storage.getEntityIndex (entity it) (storage M) with
  | Some userIdx, Some entityIdx =>
      U ← lift (require (userEmbeddings M) TypeError);
      _ ← lift (tf_slice_row U userIdx (embeddingSize M));
      E ← lift (require (entityEmbeddings M) TypeError);
      _ ← lift (tf_slice_row E entityIdx (embeddingSize M));
      let '(o, U', E', returned) :=
        minimize (optimizer M) U E userIdx entityIdx (embeddingSize M)
          (default num_one (rating it)) in
      _ ← set_this (fun M =>
        set_optimizer o (set_entityEmbeddings E' (set_userEmbeddings U' M)));
      if returned : bool then mret tt else lift (Throw EngineError)
  | _, _ => mret tt
  end.

Definition trainEpochInBatches (fuel : nat) (data : list Interaction)
  : Eff unit :=
  M ← get_this;
  for_step fuel (length data) (batchSize M) 0
    (fun i _ =>
       let batch := Js.slice data i (i + batchSize M) in
       for_of batch train)
    tt.

(** The registration and sizing phases of [fit]. *)
Definition fit_prepare (fuel : nat) (data : list Interaction) : Eff unit :=
  _ ← registerUsersAndEntitiesInBatches fuel data;
  M ← get_this;
  if _initialized M then resizeEmbeddingsIfNeeded fuel
  else initializeEmbeddings fuel.

(** The optimization phase of [fit]. *)
Definition fit_train (fuel : nat) (data : list Interaction) : Eff unit :=
  M ← get_this;
  for_of (seq 0 (epoch M)) (fun _ => trainEpochInBatches fuel data).

Definition fit (fuel : nat) (data : list Interaction) : Eff unit :=
  if decide (length data = 0) then mret tt
  else _ ← fit_prepare fuel data; fit_train fuel data.

(** ** Methods that only read [this] *)

(** The objects [{ id, score }] that [rankTop] sorts. *)
Record Entry : Type := {
  entry_id : option Id;
  entry_score : number
}.

(** [(a, b) => b.score - a.score] *)
Definition comparator (a b : Entry) : comparison :=
  num_sign (num_sub (entry_score b) (entry_score a)).

Definition entries (scores : list number) (ids : list (option Id))
  : list Entry :=
  imap (fun idx score =>
          {| entry_id := Js.array_get ids idx; entry_score := score |})
       scores.

Definition rankTop (scores : list number) (ids : list (option Id))
    (count : Z) : list (option Id) :=
  entry_id <$> Js.slice0 (Js.sort comparator (entries scores ids)) count.

Definition getUsers (M : Recommendation) (entity : Id) (count : Z)
  : Outcome (list (option Id)) :=
  match Storage.getEntityIndex entity (storage M) with
  | None => Return []
  | Some entityIdx =>
      E ← require (entityEmbeddings M) TypeError;
      entityVec ← tf_slice_row E entityIdx (embeddingSize M);
      U ← require (userEmbeddings M) EngineError;
      values ← tf_matMul_vec U entityVec;
      let userIds := Storage.getAllUsers (storage M) in
      Return (rankTop values userIds count)
  end.

Definition getEntities (M : Recommendation) (user : Id) (count : Z)
  : Outcome (list (option Id)) :=
  match Storage.getUserIndex user (storage M) with
  | None => Return []
  | Some userIdx =>
      U ← require (userEmbeddings M) TypeError;
      userVec ← tf_slice_row U userIdx (embeddingSize M);
      E ← require (entityEmbeddings M) EngineError;
      values ← tf_matMul_vec E userVec;
      let entityIds := Storage.getAllEntities (storage M) in
      Return (rankTop values entityIds count)
  end.

Definition export (M : Recommendation) : Outcome SerializedModel :=
  if negb (_initialized M) then Throw NotInitialized
  else
    let storageData := Storage.exportData (storage M) in
    U ← require (userEmbeddings M) TypeError;
    E ← require (entityEmbeddings M) TypeError;
    Return
      {| sm_config :=
           {| cfg_epoch := epoch M; cfg_embeddingSize := embeddingSize M;
              cfg_learningRate := learningRate M;
              cfg_batchSize := batchSize M |};
         sm_userEmbeddings := tf_array U;
         sm_entityEmbeddings := tf_array E;
         sm_userMap := sd_userMap storageData;
         sm_entityMap := sd_entityMap storageData;
         sm_reverseUserMap := sd_reverseUserMap storageData;
         sm_reverseEntityMap := sd_reverseEntityMap storageData;
         sm_initialized := _initialized M;
         sm_version := "1.0.0" |}.

(** [static from(modelData, storage?)].  A version other than 1.0.0 only
    logs a warning. *)
Definition from (modelData : SerializedModel)
    (storage' : option InMemoryStorage) : Outcome Recommendation :=
  let recommendation :=
    new_Recommendation
      {| opt_epoch := Some (cfg_epoch (sm_config modelData));
         opt_embeddingSize := Some (cfg_embeddingSize (sm_config modelData));
         opt_learningRate := Some (cfg_learningRate (sm_config modelData));
         opt_batchSize := Some (cfg_batchSize (sm_config modelData));
         opt_storage := Some (default Storage.empty storage') |} in
  let recommendation :=
    set_storage
      (Storage.importData
         {| sd_userMap := sm_userMap modelData;
            sd_entityMap := sm_entityMap modelData;
            sd_reverseUserMap := sm_reverseUserMap modelData;
            sd_reverseEntityMap := sm_reverseEntityMap modelData |})
      recommendation in
  U ← tf_tensor2d (sm_userEmbeddings modelData);
  let recommendation := set_userEmbeddings U recommendation in
  E ← tf_tensor2d (sm_entityEmbeddings modelData);
  let recommendation := set_entityEmbeddings E recommendation in
  Return (set_initialized (sm_initialized modelData) recommendation).

End Recommender.

(* ===================================================================== *)
(** * The vocabulary of the statements *)
(* ===================================================================== *)

(** The identifiers that a sequence of calls asks a slot for. *)
Definition created_users (cs : list Storage.call) : list Id :=
  omap (fun c =>
          match c with Storage.CreateUser id => Some id | _ => None end)
       cs.

Definition created_entities (cs : list Storage.call) : list Id :=
  omap (fun c =>
          match c with Storage.CreateEntity id => Some id | _ => None end)
       cs.

(** A forward map [m] and a reverse array [r] form a dense index of the
    identifiers [ids]: exactly the [ids] have a slot, two identifiers never
    share one, the slots are [0 .. n-1] for [n] the number of distinct
    [ids], and [r] lists the identifiers by slot. *)
Definition dense_index (m : gmap Id nat) (r : list (option Id))
    (ids : list Id) : Prop :=
  (forall id, id ∈ ids <-> is_Some (m !! id)) /\
  (forall id1 id2 i, m !! id1 = Some i -> m !! id2 = Some i -> id1 = id2) /\
  (forall i, i < length (remove_dups ids) <-> exists id, m !! id = Some i) /\
  size m = length (remove_dups ids) /\
  length r = size m /\
  (forall id i, m !! id = Some i <-> r !! i = Some (Some id)).

Module Index.

(** The forward map [m] and the reverse array [r] are linked: they have
    the same size, [r] is [m] read backwards, and [r] has no hole. *)
Definition linked (m : gmap Id nat) (r : list (option Id)) : Prop :=
  length r = size m /\
  (forall id i, m !! id = Some i <-> r !! i = Some (Some id)) /\
  (forall i, i < length r -> exists id, r !! i = Some (Some id)).

(** What [getOrCreateUserIndex] and [getOrCreateEntityIndex] do to their
    own pair of fields. *)
Definition create (id : Id) (m : gmap Id nat) (r : list (option Id))
  : gmap Id nat * list (option Id) :=
  match m !! id with
  | Some _ => (m, r)
  | None => (<[id := size m]> m, Js.array_set r (size m) id)
  end.

End Index.

Section Comparators.
Context {A : Type} (comparefn : A -> A -> comparison).

(** [x] and [y] are tied: neither is placed before the other. *)
Definition tied (x y : A) : bool :=
  match comparefn x y with Eq => true | _ => false end.

(** [comparefn] is a consistent comparator on the values that satisfy
    [P]. *)
Record consistent_on (P : A -> Prop) : Prop := {
  cmp_refl : forall a, P a -> comparefn a a = Eq;
  cmp_antisym : forall a b,
    P a -> P b -> comparefn a b = CompOpp (comparefn b a);
  cmp_trans : forall a b c,
    P a -> P b -> P c ->
    comparefn a b <> Gt -> comparefn b c <> Gt -> comparefn a c <> Gt
}.

End Comparators.

Section Vocabulary.
Context {NE : NumericEngine}.

(** The entries whose score is not NaN. *)
Definition comparable (e : Entry) : Prop :=
  num_is_nan (entry_score e) = false.

(** [a] is ranked before [b] only if [a.score - b.score] is not
    negative. *)
Definition descending (a b : Entry) : Prop :=
  num_sign (num_sub (entry_score a) (entry_score b)) <> Lt.

(** All rows of [t] have [d] columns. *)
Definition shaped {A} (d : nat) (t : list (list A)) : Prop :=
  Forall (fun row => length row = d) t.

(** The state of a model whose index is dense and, once initialized, whose
    matrices have one row of [embeddingSize] columns per slot. *)
Definition consistent (M : Recommendation) : Prop :=
  Index.linked (userMap (storage M)) (reverseUserMap (storage M))
  /\ Index.linked (entityMap (storage M))
       (reverseEntityMap (storage M))
  /\ (_initialized M = true ->
      exists U E,
        userEmbeddings M = Some U /\ entityEmbeddings M = Some E
        /\ shaped (embeddingSize M) U /\ shaped (embeddingSize M) E
        /\ length U = length (Storage.getAllUsers (storage M))
        /\ length E = length (Storage.getAllEntities (storage M))).

(** If [m] starts in a state that satisfies [P] and returns [a], the state
    it leaves satisfies [Q a]. *)
Definition ensures {A} (m : Eff A) (P : World -> Prop)
    (Q : A -> World -> Prop) : Prop :=
  forall w a w', P w -> m w = (Return a, w') -> Q a w'.

(** [M'] differs from [M] in its embeddings and its optimizer at most. *)
Definition frame (M M' : Recommendation) : Prop :=
  storage M' = storage M /\ embeddingSize M' = embeddingSize M
  /\ learningRate M' = learningRate M /\ epoch M' = epoch M
  /\ batchSize M' = batchSize M /\ _initialized M' = _initialized M.

(** [t.shape[0]] of an embedding variable. *)
Definition rowCount (t : option Matrix) : nat :=
  match t with Some rows => length rows | None => 0 end.

(** The state after some calls on the index of [M]. *)
Definition registered (M : Recommendation) (r : nat) (w : World) : Prop :=
  random_pos w = r
  /\ exists cs, this w = set_storage (Storage.run cs (storage M)) M.

(** What the registration and sizing phases leave: the index after some
    calls; for an initialized model its matrices with fresh rows appended
    up to the slot counts, for another one fresh matrices of the size of
    the index. *)
Definition prepared (M M' : Recommendation) : Prop :=
  (exists cs, storage M' = Storage.run cs (storage M))
  /\ embeddingSize M' = embeddingSize M /\ learningRate M' = learningRate M
  /\ epoch M' = epoch M /\ batchSize M' = batchSize M
  /\ optimizer M' = optimizer M /\ _initialized M' = true
  /\ exists U' E',
       userEmbeddings M' = Some U' /\ entityEmbeddings M' = Some E'
       /\ if _initialized M then
            exists U E newUsers newEntities,
              userEmbeddings M = Some U /\ entityEmbeddings M = Some E
              /\ U' = U ++ newUsers /\ E' = E ++ newEntities
              /\ length newUsers
                 = length (Storage.getAllUsers (storage M')) - length U
              /\ length newEntities
                 = length (Storage.getAllEntities (storage M')) - length E
              /\ shaped (embeddingSize M) newUsers
              /\ shaped (embeddingSize M) newEntities
          else
            length U' = length (Storage.getAllUsers (storage M'))
            /\ length E' = length (Storage.getAllEntities (storage M'))
            /\ shaped (embeddingSize M) U' /\ shaped (embeddingSize M) E'.

(** The number of rows of an embedding variable and the width of each. *)
Definition shape_of (t : option Matrix) : option (list nat) :=
  match t with
  | Some rows => Some (length <$> (rows : list (list float32)))
  | None => None
  end.

(** Training on [M0] has led to [M]: the index, the configuration and the
    shapes of the matrices are those of [M0]. *)
Definition trained (M0 M : Recommendation) : Prop :=
  frame M0 M
  /\ shape_of (userEmbeddings M) = shape_of (userEmbeddings M0)
  /\ shape_of (entityEmbeddings M) = shape_of (entityEmbeddings M0).

(** [t] has a row, and all its rows have the same, non-zero number of
    columns. *)
Definition populated (t : Matrix) : Prop :=
  t <> [] /\ exists d, 0 < d /\ shaped d t.

(** A consistent model that is initialized. *)
Definition ready (M : Recommendation) : Prop :=
  consistent M /\ _initialized M = true.





(** From a state that satisfies [P], [m] returns, and the state it leaves
    satisfies [Q]. *)
Definition returns {A} (m : Eff A) (P : World -> Prop)
    (Q : A -> World -> Prop) : Prop :=
  forall w, P w -> exists a w', m w = (Return a, w') /\ Q a w'.

(** The calls that the registration phase makes on the index, in order. *)
Definition calls_of (data : list Interaction) : list Storage.call :=
  data ≫= fun it =>
    [Storage.CreateUser (user it); Storage.CreateEntity (entity it)].

(** [w] with the index of its receiver replaced. *)
Definition with_storage (st : InMemoryStorage) (w : World) : World :=
  {| this := set_storage st (this w); random_pos := random_pos w |}.

End Vocabulary.

(* ===================================================================== *)
(** * An exact engine on integers

    Integers stand for numbers that [float32] represents exactly, so that
    rounding changes nothing.  The optimizer step moves the two rows
    involved by the sign of the prediction error.  Like the Adam optimizer,
    it keeps per variable what it made for the shape that the variable had
    at its first step, and rejects a step on a variable of another shape,
    that is, on one that [resizeEmbeddingsIfNeeded] has replaced.  The
    concrete runs below use this engine. *)
(* ===================================================================== *)

Definition Z_dot (a b : list Z) : Z := foldr Z.add 0%Z (zip_with Z.mul a b).

Definition Z_minimize (o : option (list nat * list nat))
    (U E : list (list Z)) (u e d : nat) (r : Z)
  : option (list nat * list nat) * list (list Z) * list (list Z) * bool :=
  let shapes := (length <$> U, length <$> E) in
  if decide (default shapes o = shapes) then
    let err := Z.sgn (r - Z_dot (take d (default [] (U !! u)))
                                 (take d (default [] (E !! e))))%Z in
    (Some shapes,
     imap (fun i row => if decide (i = u) then Z.add err <$> row else row) U,
     imap (fun i row => if decide (i = e) then Z.add err <$> row else row) E,
     true)
  else (o, U, E, false).

Definition ZEngine : NumericEngine :=
  {| number := Z;
     float32 := Z;
     fround := fun z => z;
     widen := fun z => z;
     fround_widen := fun _ => eq_refl;
     num_sub := Z.sub;
     num_sign := fun z => (z ?= 0)%Z;
     num_is_nan := fun _ => false;
     num_one := 1%Z;
     num_default_learningRate := 0%Z;
     dot := Z_dot;
     randomNormalSample := fun n => (Z.of_nat n mod 5 - 2)%Z;
     tensor2d_ill_sized := fun _ => None;
     Optimizer := option (list nat * list nat);
     adam := fun _ => None;
     minimize := Z_minimize |}.

(** The integers with a NaN ([None]), for scores only: a difference with
    NaN is NaN, and the sign of NaN is read as zero. *)
Definition ZNaN_sub (a b : option Z) : option Z :=
  match a, b with
  | Some x, Some y => Some (x - y)%Z
  | _, _ => None
  end.

Definition ZNaNEngine : NumericEngine :=
  {| number := option Z;
     float32 := option Z;
     fround := fun z => z;
     widen := fun z => z;
     fround_widen := fun _ => eq_refl;
     num_sub := ZNaN_sub;
     num_sign := fun z =>
       match z with Some x => (x ?= 0)%Z | None => Eq end;
     num_is_nan := fun z =>
       match z with Some _ => false | None => true end;
     num_one := Some 1%Z;
     num_default_learningRate := Some 0%Z;
     dot := fun a b =>
       foldr (fun x acc =>
                match x, acc with
                | Some p, Some q => Some (p + q)%Z
                | _, _ => None
                end)
         (Some 0%Z)
         (zip_with (fun x y =>
                      match x, y with
                      | Some p, Some q => Some (p * q)%Z
                      | _, _ => None
                      end) a b);
     randomNormalSample := fun _ => Some 0%Z;
     tensor2d_ill_sized := fun _ => None;
     Optimizer := unit;
     adam := fun _ => tt;
     minimize := fun o U E _ _ _ _ => (o, U, E, true) |}.

(* ===================================================================== *)
(** * Concrete inputs and states on the integer engine *)
(* ===================================================================== *)

Definition interaction (u e : Id) : @Interaction ZEngine :=
  {| user := u; entity := e; rating := None |}.

(** [new Recommendation({ epoch: 2, embeddingSize: 2, batchSize: 2 })] *)
Definition sample_options : @RecommendationOptions ZEngine :=
  {| opt_epoch := Some 2; opt_embeddingSize := Some 2;
     opt_learningRate := None; opt_storage := None;
     opt_batchSize := Some 2 |}.

Definition sample_world0 : @World ZEngine :=
  {| this := new_Recommendation sample_options; random_pos := 0 |}.

Definition sample_data1 : list (@Interaction ZEngine) :=
  [interaction (IdStr "u") (IdStr "e");
   interaction (IdNum 7) (IdStr "e");
   interaction (IdStr "u") (IdStr "f")].

Definition sample_data2 : list (@Interaction ZEngine) :=
  [interaction (IdStr "v") (IdStr "e");
   interaction (IdStr "u") (IdStr "g")].

Definition sample_data3 : list (@Interaction ZEngine) :=
  [interaction (IdNum 7) (IdStr "f")].

(** The states after a first [fit]; after the registration and sizing
    phases of a second one that brings new identifiers, and at the
    rejection of that second [fit]; and after a second [fit] with
    identifiers that are registered already. *)
Definition sample_world1 : @World ZEngine :=
  (fit 4 sample_data1 sample_world0).2.

Definition sample_prepared2 : @World ZEngine :=
  (fit_prepare 4 sample_data2 sample_world1).2.

Definition sample_world2 : @World ZEngine :=
  (fit 4 sample_data2 sample_world1).2.

Definition sample_world3 : @World ZEngine :=
  (fit 4 sample_data3 sample_world1).2.

(** A document whose user matrix has three rows for one registered user. *)
Definition surplus_doc : @SerializedModel ZEngine :=
  {| sm_config := @Build_Config ZEngine 1 1 0%Z 1000;
     sm_userEmbeddings := [[1%Z]; [2%Z]; [3%Z]];
     sm_entityEmbeddings := [[1%Z]];
     sm_userMap := [(IdStr "u", 0)];
     sm_entityMap := [(IdStr "e", 0)];
     sm_reverseUserMap := [Some (IdStr "u")];
     sm_reverseEntityMap := [Some (IdStr "e")];
     sm_initialized := true;
     sm_version := "1.0.0" |}.

(** A document with forward maps and no reverse arrays, not initialized,
    and with no epoch of training configured. *)
Definition no_reverse_doc : @SerializedModel ZEngine :=
  {| sm_config := @Build_Config ZEngine 0 1 0%Z 1000;
     sm_userEmbeddings := [[0%Z]];
     sm_entityEmbeddings := [[0%Z]];
     sm_userMap := [(IdStr "u", 0)];
     sm_entityMap := [(IdStr "e", 0)];
     sm_reverseUserMap := [];
     sm_reverseEntityMap := [];
     sm_initialized := false;
     sm_version := "1.0.0" |}.

(** A document whose user array has rows of three lengths, six numbers in
    all, and whose flag is set. *)
Definition ragged_doc : @SerializedModel ZEngine :=
  {| sm_config := @Build_Config ZEngine 1 2 0%Z 1000;
     sm_userEmbeddings := [[1%Z; 2%Z]; [3%Z]; [4%Z; 5%Z; 6%Z]];
     sm_entityEmbeddings := [[1%Z; 2%Z]];
     sm_userMap := [(IdStr "u", 0)];
     sm_entityMap := [(IdStr "e", 0)];
     sm_reverseUserMap := [Some (IdStr "u")];
     sm_reverseEntityMap := [Some (IdStr "e")];
     sm_initialized := true;
     sm_version := "1.0.0" |}.

(** The value that a call returned. *)
Definition returned {A} (dflt : A) (o : Outcome A) : A :=
  match o with Return a => a | _ => dflt end.




Definition surplus_model : @Recommendation ZEngine :=
  returned (new_Recommendation no_options) (from surplus_doc None).

Definition surplus_world' : @World ZEngine :=
  (fit 4 [interaction (IdStr "u") (IdStr "e")]
     {| this := surplus_model; random_pos := 0 |}).2.

Definition no_reverse_model : @Recommendation ZEngine :=
  returned (new_Recommendation no_options) (from no_reverse_doc None).

Definition no_reverse_world' : @World ZEngine :=
  (fit 4 [interaction (IdStr "u") (IdStr "e")]
     {| this := no_reverse_model; random_pos := 0 |}).2.

(** The model of [sample_world1] exported and loaded again, and the state
    after a [fit] of the loaded model that brings new identifiers. *)
Definition reloaded_world1 : @World ZEngine :=
  {| this :=
       returned (new_Recommendation no_options)
         (from (returned no_reverse_doc (export (this sample_world1))) None);
     random_pos := random_pos sample_world1 |}.

Definition reloaded_world2 : @World ZEngine :=
  (fit 4 sample_data2 reloaded_world1).2.

Definition no_rows_doc : @SerializedModel ZEngine :=
  returned no_reverse_doc (export (this no_reverse_world')).

(** [new Recommendation({ epoch: 0, embeddingSize: 0 })], the state after a
    [fit] and the document exported then. *)
Definition zero_width_options : @RecommendationOptions ZEngine :=
  {| opt_epoch := Some 0; opt_embeddingSize := Some 0;
     opt_learningRate := None; opt_storage := None;
     opt_batchSize := None |}.

Definition zero_width_world' : @World ZEngine :=
  (fit 4 [interaction (IdStr "u") (IdStr "e")]
     {| this := new_Recommendation zero_width_options; random_pos := 0 |}).2.

Definition zero_width_doc : @SerializedModel ZEngine :=
  returned no_reverse_doc (export (this zero_width_world')).

(* ===================================================================== *)
(** * Loading the engine ([load-tensorflow.ts]) *)
(* ===================================================================== *)

(** The packages that [loadTensorflow] tries, in this order. *)
Definition modules : list string :=
  ["@tensorflow/tfjs-node-gpu"; "@tensorflow/tfjs-node"; "@tensorflow/tfjs"].

(** [for (const module of ms) { try { return require(module); } catch {} }],
    with [node_require m = None] when [require(m)] throws; [None] when the
    loop ends without a [return]. *)
Fixpoint try_modules {T : Type} (node_require : string -> option T)
    (ms : list string) : option T :=
  match ms with
  | [] => None
  | m :: ms' =>
      match node_require m with
      | Some tf => Some tf
      | None => try_modules node_require ms'
      end
  end.

(** [loadTensorflow()]: [None] is the error 'TensorFlow.js could not be
    loaded. ...' thrown after the loop. *)
Definition loadTensorflow {T : Type} (node_require : string -> option T)
  : option T :=
  try_modules node_require modules.

(* ===================================================================== *)
(** * More vocabulary *)
(* ===================================================================== *)

(** The identifiers of [l] in the order of their first occurrence. *)
Definition first_seen (l : list Id) : list Id :=
  reverse (remove_dups (reverse l)).

(** The slot of the last entry for [id] in a list of entries. *)
Definition last_binding (id : Id) (es : list (Id * nat)) : option nat :=
  snd <$> last (filter (fun e => e.1 = id) es).

(** [new Recommendation({ epoch: 2, embeddingSize: 2, batchSize: 0 })] *)
Definition zero_batch_world : @World ZEngine :=
  {| this := new_Recommendation
               {| opt_epoch := Some 2; opt_embeddingSize := Some 2;
                  opt_learningRate := None; opt_storage := None;
                  opt_batchSize := Some 0 |};
     random_pos := 0 |}.

(* ===================================================================== *)
(** * Proof steps *)
(* ===================================================================== *)

(** Runs the straight-line part of a method in the hypothesis [H]. *)
Ltac run_eff H :=
  unfold mbind, Eff_bind, eff_bind, get_this, set_this, lift, require,
    mret, Eff_ret, eff_ret in H; simpl in H.

(** Names the outcome of the call of [createEmbeddingsInBatches] that [H]
    has reached. *)
Ltac run_create H fuel n d t w1 Hc :=
  match type of H with
  | context [createEmbeddingsInBatches fuel ?n' ?d' ?w] =>
      destruct (createEmbeddingsInBatches fuel n' d' w) as [[t| |] w1] eqn:Hc;
      try discriminate H; simpl in H
  end.

(* ===================================================================== *)
(** * Properties of the identity index *)
(* ===================================================================== *)

Module StorageFacts.
Import Index.

Lemma array_set_end {A} (a : list (option A)) (v : A) :
  Js.array_set a (length a) v = a ++ [Some v].
Proof.
  unfold Js.array_set. destruct (decide (length a < length a)) as [H|_].
  - lia.
  - by rewrite Nat.sub_diag.
Qed.

Lemma linked_empty : linked ∅ [].
Proof.
  split; [done|]. split.
  - intros id i. rewrite lookup_empty, lookup_nil. split; discriminate.
  - simpl. intros i Hi. lia.
Qed.

Lemma linked_create id m r :
  linked m r -> linked (create id m r).1 (create id m r).2.
Proof.
  intros (Hlen & Hmr & Hfull). unfold create.
  destruct (m !! id) as [i|] eqn:Hid; [done|]. simpl.
  rewrite <- Hlen, array_set_end. split; [|split].
  - rewrite length_app, map_size_insert_None by done. simpl. lia.
  - intros id' j. destruct (decide (id = id')) as [<-|Hne].
    + rewrite lookup_insert_eq. split.
      * intros [= <-]. by rewrite list_lookup_middle.
      * intros Hj. destruct (decide (j < length r)) as [Hlt|Hge].
        -- rewrite lookup_app_l in Hj by done.
           apply Hmr in Hj. congruence.
        -- apply lookup_lt_Some in Hj. rewrite length_app in Hj.
           simpl in Hj. f_equal. lia.
    + rewrite lookup_insert_ne by done. rewrite Hmr. split.
      * intros Hj. rewrite lookup_app_l; [done|]. by eapply lookup_lt_Some.
      * intros Hj. destruct (decide (j < length r)) as [Hlt|Hge].
        -- by rewrite lookup_app_l in Hj.
        -- assert (j = length r) as ->.
           { apply lookup_lt_Some in Hj. rewrite length_app in Hj.
             simpl in Hj. lia. }
           rewrite list_lookup_middle in Hj by done. congruence.
  - intros j Hj. rewrite length_app in Hj. simpl in Hj.
    destruct (decide (j < length r)) as [Hlt|Hge].
    + rewrite lookup_app_l by done. by apply Hfull.
    + assert (j = length r) as -> by lia.
      exists id. by rewrite list_lookup_middle.
Qed.

Lemma create_dom id m r :
  dom (create id m r).1 = {[id]} ∪ dom m.
Proof.
  unfold create. destruct (m !! id) as [i|] eqn:Hid; simpl.
  - assert (id ∈ dom m) by (apply elem_of_dom; eauto). set_solver.
  - by rewrite dom_insert_L.
Qed.

(** An assigned slot survives a later creation, in both directions. *)
Lemma create_keeps id m r id' i :
  linked m r -> m !! id' = Some i ->
  (create id m r).1 !! id' = Some i.
Proof.
  intros _ Hi. unfold create.
  destruct (m !! id) as [j|] eqn:Hid; [done|]. simpl.
  rewrite lookup_insert_ne; [done|]. congruence.
Qed.

Lemma create_fresh_slot id m r :
  m !! id = None ->
  (create id m r).1 !! id = Some (size m).
Proof.
  intros Hid. unfold create. rewrite Hid. simpl. apply lookup_insert_eq.
Qed.

Lemma user_step id st :
  userMap (Storage.getOrCreateUserIndex id st).2
    = (create id (userMap st) (reverseUserMap st)).1
  /\ reverseUserMap (Storage.getOrCreateUserIndex id st).2
    = (create id (userMap st) (reverseUserMap st)).2
  /\ entityMap (Storage.getOrCreateUserIndex id st).2 = entityMap st
  /\ reverseEntityMap (Storage.getOrCreateUserIndex id st).2
     = reverseEntityMap st.
Proof.
  unfold Storage.getOrCreateUserIndex, create.
  by destruct (userMap st !! id).
Qed.

Lemma entity_step id st :
  entityMap (Storage.getOrCreateEntityIndex id st).2
    = (create id (entityMap st) (reverseEntityMap st)).1
  /\ reverseEntityMap (Storage.getOrCreateEntityIndex id st).2
    = (create id (entityMap st) (reverseEntityMap st)).2
  /\ userMap (Storage.getOrCreateEntityIndex id st).2 = userMap st
  /\ reverseUserMap (Storage.getOrCreateEntityIndex id st).2
     = reverseUserMap st.
Proof.
  unfold Storage.getOrCreateEntityIndex, create.
  by destruct (entityMap st !! id).
Qed.

Lemma step_linked st c :
  linked (userMap st) (reverseUserMap st) ->
  linked (entityMap st) (reverseEntityMap st) ->
  linked (userMap (Storage.step st c)) (reverseUserMap (Storage.step st c))
  /\ linked (entityMap (Storage.step st c))
            (reverseEntityMap (Storage.step st c)).
Proof.
  intros Hu He. destruct c as [id|id]; simpl.
  - destruct (user_step id st) as (-> & -> & -> & ->). split; [by apply linked_create | done].
  - destruct (entity_step id st) as (-> & -> & -> & ->). split; [done | by apply linked_create].
Qed.

Lemma run_linked cs st :
  linked (userMap st) (reverseUserMap st) ->
  linked (entityMap st) (reverseEntityMap st) ->
  linked (userMap (Storage.run cs st)) (reverseUserMap (Storage.run cs st))
  /\ linked (entityMap (Storage.run cs st))
            (reverseEntityMap (Storage.run cs st)).
Proof.
  revert st. induction cs as [|c cs IH]; intros st Hu He; [done|].
  simpl. destruct (step_linked st c Hu He). by apply IH.
Qed.

Lemma step_keeps st c :
  linked (userMap st) (reverseUserMap st) ->
  linked (entityMap st) (reverseEntityMap st) ->
  (forall id i, userMap st !! id = Some i ->
                userMap (Storage.step st c) !! id = Some i)
  /\ (forall id i, entityMap st !! id = Some i ->
                   entityMap (Storage.step st c) !! id = Some i).
Proof.
  intros Hu He. destruct c as [id|id]; simpl.
  - destruct (user_step id st) as (-> & _ & -> & _). split; [|done].
    intros. by eapply create_keeps.
  - destruct (entity_step id st) as (-> & _ & -> & _). split; [done|].
    intros. by eapply create_keeps.
Qed.

Lemma run_keeps cs st :
  linked (userMap st) (reverseUserMap st) ->
  linked (entityMap st) (reverseEntityMap st) ->
  (forall id i, userMap st !! id = Some i ->
                userMap (Storage.run cs st) !! id = Some i)
  /\ (forall id i, entityMap st !! id = Some i ->
                   entityMap (Storage.run cs st) !! id = Some i).
Proof.
  revert st. induction cs as [|c cs IH]; intros st Hu He; [done|].
  simpl. destruct (step_linked st c Hu He) as [Hu' He'].
  destruct (step_keeps st c Hu He) as [Ku Ke].
  destruct (IH _ Hu' He') as [Ku' Ke']. split; eauto.
Qed.

Lemma run_dom cs st :
  dom (userMap (Storage.run cs st))
    = list_to_set (created_users cs) ∪ dom (userMap st)
  /\ dom (entityMap (Storage.run cs st))
    = list_to_set (created_entities cs) ∪ dom (entityMap st).
Proof.
  revert st. induction cs as [|c cs IH]; intros st.
  - simpl. split; set_solver.
  - simpl. destruct (IH (Storage.step st c)) as [-> ->].
    destruct c as [id|id]; simpl.
    + destruct (user_step id st) as (-> & _ & -> & _). rewrite create_dom. split; set_solver.
    + destruct (entity_step id st) as (-> & _ & -> & _). rewrite create_dom. split; set_solver.
Qed.

(** From the invariant to the statement about slots. *)
Lemma linked_dense m r ids :
  linked m r -> dom m = list_to_set ids -> dense_index m r ids.
Proof.
  intros (Hlen & Hmr & Hfull) Hdom.
  assert (size m = length (remove_dups ids)) as Hsize.
  { rewrite <- size_dom, Hdom.
    rewrite <- (size_list_to_set (C := gset Id) (remove_dups ids))
      by apply NoDup_remove_dups.
    f_equal. apply set_eq. intros id.
    by rewrite !elem_of_list_to_set, elem_of_remove_dups. }
  split; [|split; [|split; [|split; [|split]]]]; try done.
  - intros id. rewrite <- elem_of_dom, Hdom. set_solver.
  - intros id1 id2 i H1 H2. apply Hmr in H1, H2. congruence.
  - intros i. rewrite <- Hsize, <- Hlen. split.
    + intros Hi. destruct (Hfull i Hi) as [id Hid].
      exists id. by apply Hmr.
    + intros [id Hid]. apply Hmr in Hid. by eapply lookup_lt_Some.
Qed.

End StorageFacts.

(** C8.  Whatever sequence [cs] of [getOrCreateUserIndex] and
    [getOrCreateEntityIndex] calls a fresh [InMemoryStorage] has served, its
    user index and its entity index are dense: exactly the identifiers asked
    for have a slot, distinct identifiers have distinct slots, the slots in
    use are [0 .. n-1] for [n] the number of distinct identifiers, and the
    reverse array lists them by slot.  An identifier without a slot is given
    slot [n] by the next call, and whatever calls [cs'] follow, an assigned
    slot keeps its identifier. *)
Theorem slot_assignment_injective_gap_free (cs cs' : list Storage.call) :
  let st := Storage.run cs Storage.empty in
  let st' := Storage.run cs' st in
  dense_index (userMap st) (Storage.getAllUsers st) (created_users cs)
  /\ dense_index (entityMap st) (Storage.getAllEntities st)
       (created_entities cs)
  /\ (forall id, Storage.getUserIndex id st = None ->
        (Storage.getOrCreateUserIndex id st).1 = size (userMap st)
        /\ Storage.getUserIndex id (Storage.getOrCreateUserIndex id st).2
           = Some (size (userMap st)))
  /\ (forall id, Storage.getEntityIndex id st = None ->
        (Storage.getOrCreateEntityIndex id st).1 = size (entityMap st)
        /\ Storage.getEntityIndex id (Storage.getOrCreateEntityIndex id st).2
           = Some (size (entityMap st)))
  /\ (forall id i, Storage.getUserIndex id st = Some i ->
        Storage.getUserIndex id st' = Some i
        /\ Storage.getAllUsers st' !! i = Some (Some id))
  /\ (forall id i, Storage.getEntityIndex id st = Some i ->
        Storage.getEntityIndex id st' = Some i
        /\ Storage.getAllEntities st' !! i = Some (Some id)).
Proof.
  intros st st'.
  destruct (StorageFacts.run_linked cs Storage.empty
              StorageFacts.linked_empty StorageFacts.linked_empty)
    as [Hu He].
  fold st in Hu, He.
  destruct (StorageFacts.run_dom cs Storage.empty) as [Du De].
  fold st in Du, De. simpl in Du, De.
  rewrite dom_empty_L, (right_id_L ∅ (∪)) in Du, De.
  destruct (StorageFacts.run_linked cs' st Hu He) as [Hu' He'].
  destruct (StorageFacts.run_keeps cs' st Hu He) as [Ku Ke].
  fold st' in Hu', He', Ku, Ke.
  split; [by apply StorageFacts.linked_dense|].
  split; [by apply StorageFacts.linked_dense|].
  unfold Storage.getUserIndex, Storage.getEntityIndex,
    Storage.getAllUsers, Storage.getAllEntities.
  split; [|split; [|split]].
  - intros id Hid. unfold Storage.getOrCreateUserIndex. rewrite Hid. simpl.
    split; [done|apply lookup_insert_eq].
  - intros id Hid. unfold Storage.getOrCreateEntityIndex. rewrite Hid. simpl.
    split; [done|apply lookup_insert_eq].
  - intros id i Hid. split; [by apply Ku|]. apply Hu'. by apply Ku.
  - intros id i Hid. split; [by apply Ke|]. apply He'. by apply Ke.
Qed.

(* ===================================================================== *)
(** * Properties of [sort] and [slice] *)
(* ===================================================================== *)

Section SortFacts.
Context {A : Type} (comparefn : A -> A -> comparison).

Lemma sort_insert_perm x l : Permutation (Js.sort_insert comparefn x l) (x :: l).
Proof.
  induction l as [|y l IH]; simpl; [done|].
  destruct (comparefn x y); try done.
  rewrite IH. apply perm_swap.
Qed.

Lemma sort_perm l : Permutation (Js.sort comparefn l) l.
Proof.
  induction l as [|x l IH]; simpl; [done|].
  rewrite sort_insert_perm. by constructor.
Qed.

Lemma sort_length l : length (Js.sort comparefn l) = length l.
Proof. apply Permutation_length, sort_perm. Qed.

Context (P : A -> Prop) (HP : consistent_on comparefn P).

Lemma tied_trans e x y :
  P e -> P x -> P y ->
  tied comparefn e x = true -> tied comparefn e y = true -> comparefn x y = Eq.
Proof.
  unfold tied. intros He Hx Hy Hex Hey.
  destruct (comparefn e x) eqn:Ex; try discriminate.
  destruct (comparefn e y) eqn:Ey; try discriminate.
  assert (comparefn x e = Eq) as Hxe
    by (rewrite (cmp_antisym comparefn P HP x e), Ex; done).
  assert (comparefn y e = Eq) as Hye
    by (rewrite (cmp_antisym comparefn P HP y e), Ey; done).
  assert (comparefn x y <> Gt) as H1
    by (apply (cmp_trans comparefn P HP x e y); congruence).
  assert (comparefn y x <> Gt) as H2
    by (apply (cmp_trans comparefn P HP y e x); congruence).
  rewrite (cmp_antisym comparefn P HP x y) in H1 |- * by done.
  destruct (comparefn y x); simpl in *; congruence.
Qed.

Lemma sort_insert_sorted x l :
  P x -> Forall P l ->
  StronglySorted (fun a b => comparefn a b <> Gt) l ->
  StronglySorted (fun a b => comparefn a b <> Gt)
    (Js.sort_insert comparefn x l).
Proof.
  intros Hx. induction l as [|y l IH]; intros Hl Hs; simpl.
  - repeat constructor.
  - apply Forall_cons in Hl as [Hy Hl].
    apply StronglySorted_inv in Hs as [Hs Hall].
    assert (forall z, z ∈ l -> P z /\ comparefn y z <> Gt) as Hyz.
    { rewrite Forall_forall in Hl, Hall. intros z Hz. split; auto. }
    destruct (comparefn x y) eqn:Exy.
    + constructor; [by constructor|]. constructor; [congruence|].
      apply Forall_forall. intros z Hz. destruct (Hyz z Hz).
      apply (cmp_trans comparefn P HP x y z); congruence.
    + constructor; [by constructor|]. constructor; [congruence|].
      apply Forall_forall. intros z Hz. destruct (Hyz z Hz).
      apply (cmp_trans comparefn P HP x y z); congruence.
    + constructor; [by apply IH|].
      apply Forall_forall. intros z Hz.
      rewrite sort_insert_perm in Hz. apply elem_of_cons in Hz as [->|Hz].
      * rewrite (cmp_antisym comparefn P HP y x), Exy by done. done.
      * by apply Hyz.
Qed.

Lemma sort_sorted l :
  Forall P l ->
  StronglySorted (fun a b => comparefn a b <> Gt) (Js.sort comparefn l).
Proof.
  induction l as [|x l IH]; intros Hl; simpl; [constructor|].
  apply Forall_cons in Hl as [Hx Hl].
  apply sort_insert_sorted; [done| |by apply IH].
  by rewrite sort_perm.
Qed.

Lemma sort_insert_stable e x l :
  P e -> P x -> Forall P l ->
  filter (fun y => tied comparefn e y = true) (Js.sort_insert comparefn x l)
  = filter (fun y => tied comparefn e y = true) (x :: l).
Proof.
  intros He Hx. induction l as [|y l IH]; intros Hl; simpl; [done|].
  apply Forall_cons in Hl as [Hy Hl].
  destruct (comparefn x y) eqn:Exy; try done.
  rewrite filter_cons, (IH Hl), !filter_cons.
  destruct (decide (tied comparefn e y = true)) as [Ty|Ty];
    destruct (decide (tied comparefn e x = true)) as [Tx|Tx]; try done.
  pose proof (tied_trans e x y He Hx Hy Tx Ty). congruence.
Qed.

(** The sort is stable: the values tied with [e] keep their order. *)
Lemma sort_stable e l :
  P e -> Forall P l ->
  filter (fun y => tied comparefn e y = true) (Js.sort comparefn l)
  = filter (fun y => tied comparefn e y = true) l.
Proof.
  intros He. induction l as [|x l IH]; intros Hl; simpl; [done|].
  apply Forall_cons in Hl as [Hx Hl].
  rewrite sort_insert_stable; [|done|done|by rewrite sort_perm].
  by rewrite !filter_cons, (IH Hl).
Qed.

(** A consistent comparator leaves a stable sort no choice: two sorted
    arrangements of the same values that keep tied values in the same order
    are equal.  So the result of [sort] does not depend on the algorithm. *)
Lemma stable_sorted_unique l1 l2 :
  Forall P l1 -> l1 ≡ₚ l2 ->
  StronglySorted (fun a b => comparefn a b <> Gt) l1 ->
  StronglySorted (fun a b => comparefn a b <> Gt) l2 ->
  (forall e, P e ->
     filter (fun y => tied comparefn e y = true) l1
     = filter (fun y => tied comparefn e y = true) l2) ->
  l1 = l2.
Proof.
  revert l2. induction l1 as [|x l1 IH]; intros l2 HP1 Hperm S1 S2 Hst.
  { by apply Permutation_nil_l in Hperm. }
  destruct l2 as [|y l2].
  { symmetry in Hperm. by apply Permutation_nil_cons in Hperm. }
  apply Forall_cons in HP1 as [Hx HP1].
  apply StronglySorted_inv in S1 as [S1 Hx1].
  apply StronglySorted_inv in S2 as [S2 Hy2].
  rewrite Forall_forall in Hx1, Hy2.
  assert (P y) as Hy.
  { assert (y ∈ x :: l1) as Hin by (rewrite Hperm; by left).
    apply elem_of_cons in Hin as [->|Hin]; [done|].
    rewrite Forall_forall in HP1. by apply HP1. }
  assert (tied comparefn x x = true) as Txx
    by (unfold tied; by rewrite (cmp_refl comparefn P HP x Hx)).
  assert (x = y) as <-.
  { pose proof (Hst x Hx) as Hf. rewrite !filter_cons in Hf.
    destruct (decide (tied comparefn x x = true)) as [_|]; [|done].
    destruct (decide (tied comparefn x y = true)) as [_|Txy];
      [by injection Hf|].
    exfalso. apply Txy.
    assert (comparefn x y <> Gt) as Hxy.
    { assert (y ∈ x :: l1) as Hin by (rewrite Hperm; by left).
      apply elem_of_cons in Hin as [->|Hin]; [|by apply Hx1].
      by rewrite (cmp_refl comparefn P HP x Hx). }
    assert (comparefn y x <> Gt) as Hyx.
    { assert (x ∈ y :: l2) as Hin by (rewrite <- Hperm; by left).
      apply elem_of_cons in Hin as [->|Hin]; [|by apply Hy2].
      by rewrite (cmp_refl comparefn P HP y Hy). }
    unfold tied. rewrite (cmp_antisym comparefn P HP x y) in Hxy |- * by done.
    destruct (comparefn y x); simpl in *; congruence. }
  f_equal. apply IH; try done.
  - by apply Permutation_cons_inv in Hperm.
  - intros e He. specialize (Hst e He). rewrite !filter_cons in Hst.
    destruct (decide (tied comparefn e x = true)); [by injection Hst|done].
Qed.

End SortFacts.

Lemma slice0_length {A} (a : list A) (count : Z) :
  Z.of_nat (length (Js.slice0 a count))
  = if (count <? 0)%Z then Z.max (Z.of_nat (length a) + count) 0
    else Z.min count (Z.of_nat (length a)).
Proof.
  unfold Js.slice0. rewrite length_take.
  destruct (count <? 0)%Z eqn:Hc; lia.
Qed.

Lemma slice0_nonneg {A} (a : list A) (count : Z) :
  (0 <= count)%Z -> Js.slice0 a count = take (Z.to_nat count) a.
Proof.
  intros Hc. unfold Js.slice0.
  destruct (count <? 0)%Z eqn:E; [lia|].
  destruct (decide (count <= Z.of_nat (length a))%Z).
  - by rewrite Z.min_l.
  - rewrite Z.min_r, Nat2Z.id by lia.
    rewrite !take_ge; [done|lia|lia].
Qed.

(* ===================================================================== *)
(** * Ranking *)
(* ===================================================================== *)

Section RankFacts.
Context {NE : NumericEngine}.

Lemma entries_lookup scores ids i :
  entries scores ids !! i
  = (fun s => {| entry_id := Js.array_get ids i; entry_score := s |})
      <$> scores !! i.
Proof. unfold entries. by rewrite list_lookup_imap. Qed.

Lemma entries_length scores ids :
  length (entries scores ids) = length scores.
Proof. unfold entries. apply length_imap. Qed.

Lemma entries_comparable scores ids :
  Forall (fun s => num_is_nan s = false) scores ->
  Forall comparable (entries scores ids).
Proof.
  rewrite !Forall_lookup. intros Hs i e He.
  rewrite entries_lookup in He.
  destruct (scores !! i) as [s|] eqn:Hi; [|done].
  injection He as <-. by apply (Hs i).
Qed.

Lemma rankTop_length scores ids count :
  Z.of_nat (length (rankTop scores ids count))
  = if (count <? 0)%Z then Z.max (Z.of_nat (length scores) + count) 0
    else Z.min count (Z.of_nat (length scores)).
Proof.
  unfold rankTop.
  by rewrite length_fmap, slice0_length, sort_length, entries_length.
Qed.

Context {NO : NumberOrder NE}.

Lemma comparator_consistent : consistent_on comparator comparable.
Proof.
  unfold comparable, comparator. split.
  - intros a Ha. by apply sign_sub_refl.
  - intros a b Ha Hb. by apply sign_sub_antisym.
  - intros a b c Ha Hb Hc Hab Hbc.
    rewrite (sign_sub_antisym (entry_score c) (entry_score a)) by done.
    assert (num_sign (num_sub (entry_score a) (entry_score c)) <> Lt)
      as Hac.
    { apply (sign_sub_trans _ (entry_score b)); try done.
      - rewrite (sign_sub_antisym (entry_score a) (entry_score b)) by done.
        destruct (num_sign (num_sub (entry_score b) (entry_score a)));
          simpl; congruence.
      - rewrite (sign_sub_antisym (entry_score b) (entry_score c)) by done.
        destruct (num_sign (num_sub (entry_score c) (entry_score b)));
          simpl; congruence. }
    destruct (num_sign (num_sub (entry_score a) (entry_score c)));
      simpl; congruence.
Qed.

Lemma sorted_descending l :
  Forall comparable l ->
  StronglySorted (fun a b => comparator a b <> Gt) l ->
  StronglySorted descending l.
Proof.
  induction l as [|x l IH]; intros Hl Hs; [constructor|].
  apply Forall_cons in Hl as [Hx Hl].
  apply StronglySorted_inv in Hs as [Hs Hall].
  constructor; [by apply IH|].
  rewrite Forall_forall in Hl, Hall. apply Forall_forall. intros y Hy.
  specialize (Hl y Hy). specialize (Hall y Hy).
  unfold descending. unfold comparator in Hall.
  rewrite (sign_sub_antisym (entry_score x) (entry_score y)) by done.
  destruct (num_sign (num_sub (entry_score y) (entry_score x)));
    simpl; congruence.
Qed.

Lemma descending_sorted l :
  Forall comparable l ->
  StronglySorted descending l ->
  StronglySorted (fun a b => comparator a b <> Gt) l.
Proof.
  induction l as [|x l IH]; intros Hl Hs; [constructor|].
  apply Forall_cons in Hl as [Hx Hl].
  apply StronglySorted_inv in Hs as [Hs Hall].
  constructor; [by apply IH|].
  rewrite Forall_forall in Hl, Hall. apply Forall_forall. intros y Hy.
  specialize (Hl y Hy). specialize (Hall y Hy).
  unfold descending in Hall. unfold comparator.
  rewrite (sign_sub_antisym (entry_score y) (entry_score x)) by done.
  destruct (num_sign (num_sub (entry_score x) (entry_score y)));
    simpl; congruence.
Qed.

(** The ranking that [rankTop] cuts is the only descending, stable
    arrangement of the entries. *)
Lemma ranking_unique scores ids ranked :
  Forall (fun s => num_is_nan s = false) scores ->
  ranked ≡ₚ entries scores ids ->
  StronglySorted descending ranked ->
  (forall e, comparable e ->
     filter (fun y => tied comparator e y = true) ranked
     = filter (fun y => tied comparator e y = true) (entries scores ids)) ->
  ranked = Js.sort comparator (entries scores ids).
Proof.
  intros Hnan Hperm Hs Hst.
  pose proof (entries_comparable scores ids Hnan) as Hcomp.
  assert (Forall comparable ranked) as Hr by (by rewrite Hperm).
  apply (stable_sorted_unique comparator comparable comparator_consistent);
    try done.
  - by rewrite sort_perm.
  - by apply descending_sorted.
  - by apply (sort_sorted comparator comparable comparator_consistent).
  - intros e He. rewrite (Hst e He). symmetry.
    by apply (sort_stable comparator comparable comparator_consistent).
Qed.

End RankFacts.

(** C4, for counts that are not negative and scores that are not NaN.
    [rankTop] returns the identifiers of the first [k] entries (of all of
    them when there are fewer) of a ranking that holds the same entries as
    the score array, one per row and paired with the row's identifier, in
    descending order of score, entries of equal score in their original row
    order; there is one such ranking only.  [rankTop] reads nothing but its
    arguments, so a repeated call returns the same list.  Hence
    [getEntities] and [getUsers]: a query whose scores are that score array
    and whose identifier list is that id array returns the first [k]
    identifiers of the same ranking. *)
Theorem rankTop_descending_stable {NE : NumericEngine} {NO : NumberOrder NE}
    (scores : list number) (ids : list (option Id)) (k : Z) :
  length ids = length scores ->
  Forall (fun s => num_is_nan s = false) scores ->
  (0 <= k)%Z ->
  exists ranked : list Entry,
    rankTop scores ids k = entry_id <$> take (Z.to_nat k) ranked
    /\ length (rankTop scores ids k) = Z.to_nat k `min` length scores
    /\ ranked ≡ₚ entries scores ids
    /\ (forall i s, scores !! i = Some s ->
          exists id, ids !! i = Some id
            /\ entries scores ids !! i
               = Some {| entry_id := id; entry_score := s |})
    /\ StronglySorted descending ranked
    /\ (forall e, comparable e ->
          filter (fun y => tied comparator e y = true) ranked
          = filter (fun y => tied comparator e y = true)
              (entries scores ids))
    /\ (forall ranked' : list Entry,
          ranked' ≡ₚ entries scores ids ->
          StronglySorted descending ranked' ->
          (forall e, comparable e ->
             filter (fun y => tied comparator e y = true) ranked'
             = filter (fun y => tied comparator e y = true)
                 (entries scores ids)) ->
          ranked' = ranked)
    /\ (forall M user userIdx U E userVec,
          Storage.getAllEntities (storage M) = ids ->
          Storage.getUserIndex user (storage M) = Some userIdx ->
          userEmbeddings M = Some U -> entityEmbeddings M = Some E ->
          tf_slice_row U userIdx (embeddingSize M) = Return userVec ->
          tf_matMul_vec E userVec = Return scores ->
          getEntities M user k
          = Return (entry_id <$> take (Z.to_nat k) ranked))
    /\ (forall M entity entityIdx U E entityVec,
          Storage.getAllUsers (storage M) = ids ->
          Storage.getEntityIndex entity (storage M) = Some entityIdx ->
          userEmbeddings M = Some U -> entityEmbeddings M = Some E ->
          tf_slice_row E entityIdx (embeddingSize M) = Return entityVec ->
          tf_matMul_vec U entityVec = Return scores ->
          getUsers M entity k
          = Return (entry_id <$> take (Z.to_nat k) ranked)).
Proof.
  intros Hlen Hnan Hk.
  pose proof (entries_comparable scores ids Hnan) as Hcomp.
  exists (Js.sort comparator (entries scores ids)).
  split; [|split; [|split; [|split; [|split; [|split; [|split; [|split]]]]]]];
    [| | | | | | |
     intros M user userIdx U E userVec Hids Hidx HU HE Hrow Hmul;
     unfold getEntities; rewrite Hidx, HU, HE; simpl; rewrite Hrow; simpl;
     rewrite Hmul; simpl; unfold rankTop;
     by rewrite Hids, slice0_nonneg
    |intros M entity entityIdx U E entityVec Hids Hidx HU HE Hrow Hmul;
     unfold getUsers; rewrite Hidx, HU, HE; simpl; rewrite Hrow; simpl;
     rewrite Hmul; simpl; unfold rankTop;
     by rewrite Hids, slice0_nonneg].
  - unfold rankTop. by rewrite slice0_nonneg.
  - pose proof (rankTop_length scores ids k) as HL.
    destruct (k <? 0)%Z eqn:E; lia.
  - apply sort_perm.
  - intros i s Hi. rewrite entries_lookup, Hi. simpl.
    destruct (ids !! i) as [id|] eqn:Hid.
    + exists id. split; [done|]. unfold Js.array_get. by rewrite Hid.
    + apply lookup_ge_None in Hid. apply lookup_lt_Some in Hi. lia.
  - apply sorted_descending.
    + by rewrite sort_perm.
    + by apply (sort_sorted comparator comparable comparator_consistent).
  - intros e He.
    by apply (sort_stable comparator comparable comparator_consistent).
  - intros ranked' Hp Hs Hst. by apply ranking_unique.
Qed.

(** The integer engine has no NaN and orders its numbers totally. *)
#[global] Instance ZEngine_order : NumberOrder ZEngine.
Proof.
  split; simpl.
  - intros x _. rewrite Z.sub_diag. reflexivity.
  - intros x y _ _.
    destruct (Z.compare_spec (x - y) 0), (Z.compare_spec (y - x) 0);
      simpl; try reflexivity; lia.
  - intros x y z _ _ _ Hxy Hyz. rewrite Z.compare_lt_iff in *. lia.
Qed.

(** A run of the theorem: the scores [2, 3, 2] of rows [a, b, c]. *)
Lemma rankTop_descending_stable_witness :
  let scores : list (@number ZEngine) := [2; 3; 2]%Z in
  let ids := [Some (IdStr "a"); Some (IdStr "b"); Some (IdStr "c")] in
  (length ids = length scores
   /\ Forall (fun s => @num_is_nan ZEngine s = false) scores
   /\ (0 <= 2)%Z)
  /\ rankTop scores ids 2 = [Some (IdStr "b"); Some (IdStr "a")]
  /\ exists ranked : list (@Entry ZEngine),
       rankTop scores ids 2 = entry_id <$> take (Z.to_nat 2) ranked
       /\ StronglySorted descending ranked.
Proof.
  intros scores ids.
  assert (length ids = length scores) as H1 by reflexivity.
  assert (Forall (fun s => @num_is_nan ZEngine s = false) scores) as H2
    by (repeat constructor).
  assert (0 <= 2)%Z as H3 by lia.
  split; [done|]. split; [reflexivity|].
  destruct (rankTop_descending_stable scores ids 2 H1 H2 H3)
    as (ranked & Hr & _ & _ & _ & Hs & _).
  exists ranked. done.
Defined.

(** C4 as stated fails for a negative count and for a score that is NaN.
    With count [-1] and three rows, [rankTop] returns two identifiers,
    which is neither the first [-1] of the ranking nor fewer.  With the
    scores [1, NaN, 2] the comparator answers NaN for every pair that the
    sort compares, so that the rows stay in their order [a, b, c], in which
    the score 2 comes after the score 1. *)
Lemma rankTop_negative_count_or_nan :
  (let scores : list (@number ZEngine) := [3; 2; 1]%Z in
   let ids := [Some (IdStr "a"); Some (IdStr "b"); Some (IdStr "c")] in
   rankTop scores ids (-1) = [Some (IdStr "a"); Some (IdStr "b")]
   /\ ~ (Z.of_nat (length (rankTop scores ids (-1))) <= -1)%Z)
  /\ (let scores : list (@number ZNaNEngine)
         := [Some 1%Z; None; Some 2%Z] in
      let ids := [Some (IdStr "a"); Some (IdStr "b"); Some (IdStr "c")] in
      length ids = length scores
      /\ rankTop scores ids 3
         = [Some (IdStr "a"); Some (IdStr "b"); Some (IdStr "c")]
      /\ Js.sort comparator (entries scores ids) = entries scores ids
      /\ ~ StronglySorted descending (entries scores ids)).
Proof.
  split.
  - split; [reflexivity|]. vm_compute. intros H. by apply H.
  - split; [reflexivity|]. split; [reflexivity|]. split; [reflexivity|].
    intros H. apply StronglySorted_inv in H as [_ H].
    apply Forall_cons in H as [_ H]. apply Forall_cons in H as [H _].
    by apply H.
Qed.

(* ===================================================================== *)
(** * Queries, [export] and [from] *)
(* ===================================================================== *)

Section QueryFacts.
Context {NE : NumericEngine}.

Lemma shaped_forallb {A B} d (t : list (list A)) (v : list B) :
  shaped d t -> length v = d ->
  forallb (fun row => length row =? length v) t = true.
Proof.
  intros Ht Hv. apply forallb_forall. intros row Hrow.
  apply list_elem_of_In in Hrow. unfold shaped in Ht.
  rewrite Forall_forall in Ht. apply Nat.eqb_eq.
  rewrite Hv. by apply Ht.
Qed.

Lemma slice_row_shaped d (t : Matrix) idx :
  shaped d t -> idx < length t ->
  exists v, tf_slice_row t idx d = Return v /\ length v = d.
Proof.
  intros Ht Hidx. unfold tf_slice_row.
  destruct (t !! idx) as [row|] eqn:Hrow.
  - assert (length row = d) as Hlen.
    { unfold shaped in Ht. rewrite Forall_lookup in Ht. by eapply Ht. }
    destruct (decide (d <= length row)) as [_|Hn]; [|lia].
    exists (take d row). split; [done|]. rewrite length_take. lia.
  - apply lookup_ge_None in Hrow. lia.
Qed.

Lemma matMul_vec_shaped d (t : Matrix) (v : list float32) :
  shaped d t -> length v = d ->
  tf_matMul_vec t v = Return ((fun row => dot row v) <$> t).
Proof.
  intros Ht Hv. unfold tf_matMul_vec.
  by rewrite (shaped_forallb d t v Ht Hv).
Qed.

Lemma tensor2d_well_sized (values : list (list number)) :
  values <> [] -> well_sized values ->
  tf_tensor2d values = Return (tensor_rows values).
Proof.
  intros Hne Hws. unfold tf_tensor2d.
  destruct values as [|r values]; [done|]. by rewrite decide_True.
Qed.

End QueryFacts.

(** On a consistent, initialized model the queries for known identifiers
    return, with one candidate per registered identifier. *)
Lemma consistent_query_length {NE : NumericEngine} (M : Recommendation)
    (c : Z) :
  consistent M -> _initialized M = true ->
  let bound (n : nat) : Z :=
    if (c <? 0)%Z then Z.max (Z.of_nat n + c) 0 else Z.min c (Z.of_nat n) in
  (forall user, is_Some (Storage.getUserIndex user (storage M)) ->
     exists l, getEntities M user c = Return l
       /\ Z.of_nat (length l)
          = bound (length (Storage.getAllEntities (storage M))))
  /\ (forall entity, is_Some (Storage.getEntityIndex entity (storage M)) ->
     exists l, getUsers M entity c = Return l
       /\ Z.of_nat (length l)
          = bound (length (Storage.getAllUsers (storage M)))).
Proof.
  intros (Lu & Le & Hinit) Hi bound.
  destruct (Hinit Hi) as (U & E & HU & HE & SU & SE & LU & LE).
  unfold Storage.getAllUsers, Storage.getAllEntities in *.
  split.
  - intros user [idx Hidx]. unfold getEntities. rewrite Hidx, HU, HE. simpl.
    assert (idx < length U) as Hlt.
    { rewrite LU. unfold Storage.getUserIndex in Hidx.
      apply Lu in Hidx. by eapply lookup_lt_Some. }
    destruct (slice_row_shaped _ U idx SU Hlt) as (v & -> & Hv). simpl.
    rewrite (matMul_vec_shaped _ E v SE Hv). simpl.
    eexists. split; [done|].
    rewrite rankTop_length, length_fmap. by rewrite LE.
  - intros entity [idx Hidx]. unfold getUsers. rewrite Hidx, HU, HE. simpl.
    assert (idx < length E) as Hlt.
    { rewrite LE. unfold Storage.getEntityIndex in Hidx.
      apply Le in Hidx. by eapply lookup_lt_Some. }
    destruct (slice_row_shaped _ E idx SE Hlt) as (v & -> & Hv). simpl.
    rewrite (matMul_vec_shaped _ U v SU Hv). simpl.
    eexists. split; [done|].
    rewrite rankTop_length, length_fmap. by rewrite LU.
Qed.

Section CountFacts.
Context {NE : NumericEngine}.

Lemma matMul_vec_length (t : Matrix) (v : list float32) scores :
  tf_matMul_vec t v = Return scores -> length scores = length t.
Proof.
  unfold tf_matMul_vec. destruct (forallb _ t); [|done].
  intros [= <-]. by rewrite length_fmap.
Qed.

(** What [rankTop] returns for a count [c] over [n] scores: the first
    [min(c, n)] identifiers of the ranking of all rows if [c >= 0], the
    first [max(n + c, 0)] of them if [c < 0]. *)
Lemma rankTop_cut scores ids (c : Z) :
  let n := length scores in
  let bound : Z :=
    if (c <? 0)%Z then Z.max (Z.of_nat n + c) 0 else Z.min c (Z.of_nat n) in
  let ranking := entry_id <$> Js.sort comparator (entries scores ids) in
  length ranking = n
  /\ rankTop scores ids c = take (Z.to_nat bound) ranking
  /\ Z.of_nat (length (take (Z.to_nat bound) ranking)) = bound.
Proof.
  intros n bound ranking.
  assert (length ranking = n) as Hlen
    by (unfold ranking; by rewrite length_fmap, sort_length, entries_length).
  split; [exact Hlen|]. split.
  - unfold rankTop, Js.slice0, ranking.
    rewrite sort_length, entries_length. by rewrite fmap_take.
  - rewrite length_take, Hlen. unfold bound. destruct (c <? 0)%Z eqn:E; lia.
Qed.

End CountFacts.

(** C10.  Whatever the model, when the scores of a query for a known
    identifier can be computed, the query returns for every count [c],
    negative ones included: with one candidate per row of the matrix that
    is scored, [n] in all, it returns the first [min(c, n)] identifiers of
    the ranking of all candidates if [c >= 0], and the first
    [max(n + c, 0)] of them if [c < 0], that is, all candidates except the
    [|c|] that are ranked last.  On a consistent, initialized model the
    scores of every query for a known identifier can be computed, and [n]
    is the number of registered identifiers of the other kind. *)
Theorem query_result_length {NE : NumericEngine} (M : Recommendation)
    (c : Z) :
  let bound (n : nat) : Z :=
    if (c <? 0)%Z then Z.max (Z.of_nat n + c) 0 else Z.min c (Z.of_nat n) in
  (forall user userIdx U E userVec scores,
     Storage.getUserIndex user (storage M) = Some userIdx ->
     userEmbeddings M = Some U -> entityEmbeddings M = Some E ->
     tf_slice_row U userIdx (embeddingSize M) = Return userVec ->
     tf_matMul_vec E userVec = Return scores ->
     let ranking :=
       entry_id <$> Js.sort comparator
                      (entries scores (Storage.getAllEntities (storage M))) in
     length ranking = length E
     /\ getEntities M user c
        = Return (take (Z.to_nat (bound (length E))) ranking)
     /\ Z.of_nat (length (take (Z.to_nat (bound (length E))) ranking))
        = bound (length E))
  /\ (forall entity entityIdx U E entityVec scores,
     Storage.getEntityIndex entity (storage M) = Some entityIdx ->
     userEmbeddings M = Some U -> entityEmbeddings M = Some E ->
     tf_slice_row E entityIdx (embeddingSize M) = Return entityVec ->
     tf_matMul_vec U entityVec = Return scores ->
     let ranking :=
       entry_id <$> Js.sort comparator
                      (entries scores (Storage.getAllUsers (storage M))) in
     length ranking = length U
     /\ getUsers M entity c
        = Return (take (Z.to_nat (bound (length U))) ranking)
     /\ Z.of_nat (length (take (Z.to_nat (bound (length U))) ranking))
        = bound (length U))
  /\ (consistent M -> _initialized M = true ->
      (forall user, is_Some (Storage.getUserIndex user (storage M)) ->
         exists l, getEntities M user c = Return l
           /\ Z.of_nat (length l)
              = bound (length (Storage.getAllEntities (storage M))))
      /\ (forall entity,
            is_Some (Storage.getEntityIndex entity (storage M)) ->
            exists l, getUsers M entity c = Return l
              /\ Z.of_nat (length l)
                 = bound (length (Storage.getAllUsers (storage M))))).
Proof.
  intros bound. split; [|split].
  - intros user userIdx U E userVec scores Hidx HU HE Hrow Hmul ranking.
    pose proof (matMul_vec_length _ _ _ Hmul) as Hlen.
    destruct (rankTop_cut scores (Storage.getAllEntities (storage M)) c)
      as (H1 & H2 & H3).
    rewrite Hlen in H1, H2, H3.
    split; [exact H1|]. split; [|exact H3].
    unfold getEntities. rewrite Hidx, HU, HE. simpl. rewrite Hrow. simpl.
    rewrite Hmul. simpl. by rewrite H2.
  - intros entity entityIdx U E entityVec scores Hidx HU HE Hrow Hmul ranking.
    pose proof (matMul_vec_length _ _ _ Hmul) as Hlen.
    destruct (rankTop_cut scores (Storage.getAllUsers (storage M)) c)
      as (H1 & H2 & H3).
    rewrite Hlen in H1, H2, H3.
    split; [exact H1|]. split; [|exact H3].
    unfold getUsers. rewrite Hidx, HU, HE. simpl. rewrite Hrow. simpl.
    rewrite Hmul. simpl. by rewrite H2.
  - intros HC Hi. exact (consistent_query_length M c HC Hi).
Qed.

(** C7.  For an identifier without a slot, [getEntities] and [getUsers]
    return the empty list, whatever the count and the state of the model. *)
Theorem unknown_id_empty_result {NE : NumericEngine} (M : Recommendation)
    (id : Id) (k : Z) :
  (Storage.getUserIndex id (storage M) = None ->
   getEntities M id k = Return [])
  /\ (Storage.getEntityIndex id (storage M) = None ->
      getUsers M id k = Return []).
Proof.
  split; intros H.
  - unfold getEntities. by rewrite H.
  - unfold getUsers. by rewrite H.
Qed.

(** C6.  [fit] with an empty list returns at once, whatever the fuel, and
    leaves the receiver and the engine as they were. *)
Theorem fit_empty_noop {NE : NumericEngine} (fuel : nat) (w : World) :
  fit fuel [] w = (Return tt, w).
Proof. reflexivity. Qed.


(* ===================================================================== *)
(** * Reasoning about the methods that change [this] *)
(* ===================================================================== *)

Section Ensures.
Context {NE : NumericEngine}.

Lemma ensures_ret {A} (a : A) (P : World -> Prop) (Q : A -> World -> Prop) :
  (forall w, P w -> Q a w) -> ensures (mret a) P Q.
Proof. intros H w a' w' HP [= <- <-]. by apply H. Qed.

Lemma ensures_bind {A B} (m : Eff A) (f : A -> Eff B) P R Q :
  ensures m P R -> (forall a, ensures (f a) (R a) Q) ->
  ensures (m ≫= f) P Q.
Proof.
  intros Hm Hf w b w' HP. unfold mbind, Eff_bind, eff_bind.
  destruct (m w) as [[a|e|] w1] eqn:Hmw; try discriminate.
  intros Hfa. eapply Hf; [|done]. by eapply Hm.
Qed.

Lemma ensures_weaken {A} (m : Eff A) (P P' : World -> Prop)
    (Q Q' : A -> World -> Prop) :
  ensures m P Q -> (forall w, P' w -> P w) ->
  (forall a w, Q a w -> Q' a w) -> ensures m P' Q'.
Proof. intros Hm HP HQ w a w' HP' Hr. apply HQ. eapply Hm; eauto. Qed.

Lemma ensures_get_this (P : World -> Prop) Q :
  (forall w, P w -> Q (this w) w) -> ensures get_this P Q.
Proof. intros H w a w' HP [= <- <-]. by apply H. Qed.

Lemma ensures_set_this f (P : World -> Prop) Q :
  (forall w, P w ->
     Q tt {| this := f (this w); random_pos := random_pos w |}) ->
  ensures (set_this f) P Q.
Proof. intros H w a w' HP [= <- <-]. by apply H. Qed.

Lemma ensures_lift {A} (o : Outcome A) (P : World -> Prop) Q :
  (forall a w, o = Return a -> P w -> Q a w) -> ensures (lift o) P Q.
Proof. intros H w a w' HP [= -> <-]. by apply H. Qed.

Lemma ensures_for_step {S} (I : nat -> S -> World -> Prop)
    fuel n step (body : nat -> S -> Eff S) :
  (forall i acc, i < n ->
     ensures (body i acc) (I i acc) (fun acc' => I (i + step) acc')) ->
  forall i acc,
    ensures (for_step fuel n step i body acc) (I i acc)
      (fun acc' w' => exists j, n <= j /\ I j acc' w').
Proof.
  intros Hbody. induction fuel as [|fuel IH]; intros i acc; simpl.
  - intros w a w' _ [=].
  - destruct (decide (i < n)) as [Hlt|Hge].
    + eapply ensures_bind; [by apply Hbody|]. intros acc'. apply IH.
    + apply ensures_ret. intros w HI. exists i. split; [lia|done].
Qed.

Lemma ensures_for_of {A} (I : World -> Prop) (xs : list A)
    (body : A -> Eff unit) :
  (forall x, x ∈ xs -> ensures (body x) I (fun _ => I)) ->
  ensures (for_of xs body) I (fun _ => I).
Proof.
  induction xs as [|x xs IH]; intros Hbody; simpl.
  - by apply ensures_ret.
  - eapply ensures_bind.
    + apply Hbody. by left.
    + intros []. apply IH. intros y Hy. apply Hbody. by right.
Qed.

End Ensures.

(* ===================================================================== *)
(** * The registration and sizing phases *)
(* ===================================================================== *)

Section SizingFacts.
Context {NE : NumericEngine}.

Lemma frame_refl M : frame M M.
Proof. by repeat split. Qed.

Lemma frame_trans M1 M2 M3 : frame M1 M2 -> frame M2 M3 -> frame M1 M3.
Proof.
  unfold frame. intros (?&?&?&?&?&?) (?&?&?&?&?&?).
  repeat split; congruence.
Qed.

Lemma array_set_length {A} (a : list (option A)) i v :
  length a <= length (Js.array_set a i v).
Proof.
  unfold Js.array_set. destruct (decide (i < length a)).
  - by rewrite length_insert.
  - rewrite length_app. lia.
Qed.

Lemma step_length st c :
  length (reverseUserMap st) <= length (reverseUserMap (Storage.step st c))
  /\ length (reverseEntityMap st)
     <= length (reverseEntityMap (Storage.step st c)).
Proof.
  destruct c as [id|id]; simpl.
  - unfold Storage.getOrCreateUserIndex.
    destruct (userMap st !! id); simpl; [lia|].
    split; [apply array_set_length | lia].
  - unfold Storage.getOrCreateEntityIndex.
    destruct (entityMap st !! id); simpl; [lia|].
    split; [lia | apply array_set_length].
Qed.

Lemma run_length cs st :
  length (reverseUserMap st) <= length (reverseUserMap (Storage.run cs st))
  /\ length (reverseEntityMap st)
     <= length (reverseEntityMap (Storage.run cs st)).
Proof.
  revert st. induction cs as [|c cs IH]; intros st; simpl; [lia|].
  destruct (step_length st c), (IH (Storage.step st c)). lia.
Qed.

Lemma run_app cs1 cs2 st :
  Storage.run (cs1 ++ cs2) st = Storage.run cs2 (Storage.run cs1 st).
Proof. unfold Storage.run. apply foldl_app. Qed.

Lemma register_registered M r it :
  ensures (register it) (registered M r) (fun _ => registered M r).
Proof.
  unfold register. eapply ensures_bind.
  - apply ensures_set_this with
      (Q := fun _ w => random_pos w = r /\ exists cs,
              this w = set_storage (Storage.run cs (storage M)) M).
    intros w (Hr & cs & Hw). simpl. split; [done|].
    exists (cs ++ [Storage.CreateUser (user it)]).
    rewrite Hw, run_app. reflexivity.
  - intros []. apply ensures_set_this.
    intros w (Hr & cs & Hw). split; [done|]. simpl.
    exists (cs ++ [Storage.CreateEntity (entity it)]).
    rewrite Hw, run_app. reflexivity.
Qed.

Lemma registration_registered fuel data M r :
  ensures (registerUsersAndEntitiesInBatches fuel data)
    (fun w => this w = M /\ random_pos w = r)
    (fun _ => registered M r).
Proof.
  unfold registerUsersAndEntitiesInBatches.
  eapply ensures_bind with (R := fun M' w => M' = M /\ registered M r w).
  - apply ensures_get_this. intros w [Hw Hr]. split; [done|].
    split; [done|]. exists []. rewrite Hw. by destruct M.
  - intros M'.
    eapply ensures_weaken with
      (P := fun w => M' = M /\ registered M r w)
      (Q := fun _ w => exists j : nat,
              length data <= j /\ (M' = M /\ registered M r w)).
    + apply (ensures_for_step
               (fun _ (_ : unit) w => M' = M /\ registered M r w)).
      intros i [] Hi.
      apply ensures_weaken with
        (P := fun w => M' = M /\ registered M r w)
        (Q := fun (_ : unit) w => M' = M /\ registered M r w);
        [|done|by intros []].
      apply ensures_for_of with
        (I := fun w => M' = M /\ registered M r w).
      intros it _ w a w' [-> HR] Hrun. split; [done|].
      by eapply register_registered.
    + done.
    + intros a w (j & _ & _ & HR). done.
Qed.

(** ** [createEmbeddingsInBatches] *)

Lemma normal_rows_length pos rows d : length (normal_rows pos rows d) = rows.
Proof. unfold normal_rows. by rewrite length_fmap, length_seq. Qed.

Lemma normal_rows_shaped pos rows d : shaped d (normal_rows pos rows d).
Proof.
  unfold shaped, normal_rows. apply Forall_fmap, Forall_forall.
  intros r _. simpl. by rewrite length_fmap, length_seq.
Qed.

Lemma shaped_app d (t1 t2 : Matrix) :
  shaped d t1 -> shaped d t2 -> shaped d (t1 ++ t2).
Proof. unfold shaped. intros. by apply Forall_app. Qed.

Lemma createEmbeddingsInBatches_rows fuel totalSize d M :
  ensures (createEmbeddingsInBatches fuel totalSize d)
    (fun w => this w = M)
    (fun t w' => this w' = M /\ length t = totalSize /\ shaped d t).
Proof.
  unfold createEmbeddingsInBatches.
  destruct (decide (totalSize = 0)) as [->|Hn].
  { apply ensures_ret. intros w Hw. split; [done|]. split; [done|].
    constructor. }
  eapply ensures_bind with (R := fun _ w => this w = M).
  { by apply ensures_get_this. }
  intros M'. eapply ensures_bind.
  - eapply ensures_weaken;
      [apply (ensures_for_step
                (fun i (batches : list Matrix) w =>
                   this w = M
                   /\ length (concat batches) = i `min` totalSize
                   /\ shaped d (concat batches)))
      | intros w Hw; simpl; split; [exact Hw|split; [done|constructor]]
      | intros a w Hq; exact Hq].
    intros i batches Hi w batches' w' (Hw & Hlen & Hsh).
    unfold mbind, Eff_bind, eff_bind, tf_randomNormal. simpl.
    intros [= <- <-]. simpl. split; [done|].
    rewrite concat_app. simpl. rewrite app_nil_r. split.
    + rewrite length_app, normal_rows_length, Hlen. lia.
    + apply shaped_app; [done|apply normal_rows_shaped].
  - intros batches. apply ensures_ret.
    intros w (j & Hj & Hw & Hlen & Hsh). split; [done|].
    split; [|done]. rewrite Hlen. lia.
Qed.

End SizingFacts.

Section PrepareFacts.
Context {NE : NumericEngine}.

Lemma concat2_app (a b t : Matrix) :
  tf_concat2 a b = Return t -> t = a ++ b.
Proof.
  unfold tf_concat2. destruct a as [|r a]; [by intros [= <-]|].
  destruct (forallb _ _); [by intros [= <-]|discriminate].
Qed.

Lemma initializeEmbeddings_sizes fuel M :
  ensures (initializeEmbeddings fuel) (fun w => this w = M)
    (fun _ w' => exists U E,
       this w' = set_initialized true
                   (set_entityEmbeddings E (set_userEmbeddings U M))
       /\ length U = length (Storage.getAllUsers (storage M))
       /\ length E = length (Storage.getAllEntities (storage M))
       /\ shaped (embeddingSize M) U /\ shaped (embeddingSize M) E).
Proof.
  intros w [] w' Hw Hrun. unfold initializeEmbeddings in Hrun.
  run_eff Hrun. rewrite Hw in Hrun.
  run_create Hrun fuel n d U w1 HcU.
  apply (createEmbeddingsInBatches_rows _ _ _ M) in HcU as (Hw1 & HU & SU);
    [|done].
  rewrite Hw1 in Hrun.
  match type of Hrun with
  | context [createEmbeddingsInBatches fuel ?n' ?d' ?w] =>
      destruct (createEmbeddingsInBatches fuel n' d' w) as [[E| |] w2] eqn:HcE;
      try discriminate Hrun; simpl in Hrun
  end.
  apply (createEmbeddingsInBatches_rows _ _ _ (set_userEmbeddings U M))
    in HcE as (Hw2 & HE & SE); [|done].
  injection Hrun as <-. simpl. rewrite Hw2. exists U, E. done.
Qed.

Lemma resizeEmbeddingsIfNeeded_appends fuel M U E :
  userEmbeddings M = Some U -> entityEmbeddings M = Some E ->
  ensures (resizeEmbeddingsIfNeeded fuel) (fun w => this w = M)
    (fun _ w' => exists newUsers newEntities,
       frame M (this w') /\ optimizer (this w') = optimizer M
       /\ userEmbeddings (this w') = Some (U ++ newUsers)
       /\ entityEmbeddings (this w') = Some (E ++ newEntities)
       /\ length newUsers
          = length (Storage.getAllUsers (storage M)) - length U
       /\ length newEntities
          = length (Storage.getAllEntities (storage M)) - length E
       /\ shaped (embeddingSize M) newUsers
       /\ shaped (embeddingSize M) newEntities).
Proof.
  intros HU HE w [] w' Hw Hrun. unfold resizeEmbeddingsIfNeeded in Hrun.
  run_eff Hrun. rewrite Hw, HU, HE in Hrun. simpl in Hrun.
  destruct (decide (length U < length (Storage.getAllUsers (storage M))))
    as [Hlu|Hlu].
  - run_eff Hrun. run_create Hrun fuel n d newU w1 HcU.
    apply (createEmbeddingsInBatches_rows _ _ _ M) in HcU
      as (Hw1 & HnU & SU); [|done].
    destruct (tf_concat2 U newU) as [U'| |] eqn:HcatU;
      try discriminate Hrun. simpl in Hrun.
    apply concat2_app in HcatU as ->.
    destruct (decide (length E < length (Storage.getAllEntities (storage M))))
      as [Hle|Hle].
    + run_eff Hrun. run_create Hrun fuel n d newE w2 HcE.
      apply (createEmbeddingsInBatches_rows _ _ _
               (set_userEmbeddings (U ++ newU) M)) in HcE
        as (Hw2 & HnE & SE); [|by rewrite <- Hw1].
      destruct (tf_concat2 E newE) as [E'| |] eqn:HcatE;
        try discriminate Hrun. simpl in Hrun.
      apply concat2_app in HcatE as ->.
      injection Hrun as <-. simpl. rewrite Hw2. simpl.
      exists newU, newE. split; [by repeat split|]. done.
    + run_eff Hrun. injection Hrun as <-. simpl. rewrite Hw1. simpl.
      exists newU, []. rewrite app_nil_r.
      split; [by repeat split|]. repeat split; try done.
      * simpl. lia.
      * constructor.
  - run_eff Hrun.
    destruct (decide (length E < length (Storage.getAllEntities (storage M))))
      as [Hle|Hle].
    + run_eff Hrun. run_create Hrun fuel n d newE w2 HcE.
      apply (createEmbeddingsInBatches_rows _ _ _ M) in HcE
        as (Hw2 & HnE & SE); [|done].
      destruct (tf_concat2 E newE) as [E'| |] eqn:HcatE;
        try discriminate Hrun. simpl in Hrun.
      apply concat2_app in HcatE as ->.
      injection Hrun as <-. simpl. rewrite Hw2. simpl.
      exists [], newE. rewrite app_nil_r.
      split; [by repeat split|]. repeat split; try done.
      * simpl. lia.
      * constructor.
    + run_eff Hrun. injection Hrun as <-. rewrite Hw.
      exists [], []. rewrite !app_nil_r.
      split; [by repeat split|]. repeat split; try done; try constructor.
      * simpl. lia.
      * simpl. lia.
Qed.

End PrepareFacts.

Section FitFacts.
Context {NE : NumericEngine}.

Lemma fit_prepare_inv fuel data w w' :
  fit_prepare fuel data w = (Return tt, w') ->
  prepared (this w) (this w')
  /\ exists w1,
       registerUsersAndEntitiesInBatches fuel data w = (Return tt, w1)
       /\ storage (this w') = storage (this w1).
Proof.
  intros Hrun. unfold fit_prepare in Hrun.
  unfold mbind at 1, Eff_bind, eff_bind in Hrun.
  destruct (registerUsersAndEntitiesInBatches fuel data w)
    as [[[]| |] w1] eqn:Hreg; try discriminate Hrun.
  pose proof Hreg as Hreg0.
  apply (registration_registered _ _ (this w) (random_pos w)) in Hreg
    as (_ & cs & Hw1); [|done].
  assert (_initialized (this w1) = _initialized (this w)
          /\ userEmbeddings (this w1) = userEmbeddings (this w)
          /\ entityEmbeddings (this w1) = entityEmbeddings (this w)
          /\ storage (this w1) = Storage.run cs (storage (this w)))
    as (Hi1 & HU1 & HE1 & Hs1) by (by rewrite Hw1).
  run_eff Hrun. rewrite Hi1 in Hrun.
  destruct (_initialized (this w)) eqn:Hinit.
  - destruct (userEmbeddings (this w)) as [U|] eqn:HU.
    2:{ unfold resizeEmbeddingsIfNeeded in Hrun. run_eff Hrun.
        rewrite HU1 in Hrun. discriminate Hrun. }
    destruct (entityEmbeddings (this w)) as [E|] eqn:HE.
    2:{ unfold resizeEmbeddingsIfNeeded in Hrun. run_eff Hrun.
        rewrite HU1, HE1 in Hrun. simpl in Hrun.
        repeat match type of Hrun with
        | context [decide ?P] => destruct (decide P); run_eff Hrun
        | context [createEmbeddingsInBatches ?f ?n ?d ?w0] =>
            destruct (createEmbeddingsInBatches f n d w0) as [[?| |] ?];
            try discriminate Hrun; simpl in Hrun
        | context [tf_concat2 ?a ?b] =>
            destruct (tf_concat2 a b); try discriminate Hrun; simpl in Hrun
        end; discriminate Hrun. }
    eapply (resizeEmbeddingsIfNeeded_appends fuel _ U E) in Hrun;
      [| exact HU1 | exact HE1 | done].
    destruct Hrun as (newU & newE & Hfr & Hopt & HU' & HE' & LU & LE & SU & SE).
    rewrite Hw1 in Hfr, Hopt, LU, LE, SU, SE. simpl in *.
    destruct Hfr as (Hst & Hd & Hlr & Hep & Hbs & Hin). simpl in *.
    split; [|exists w1; split; [done|congruence]].
    split; [exists cs; by rewrite Hst|].
    repeat (split; [congruence|]).
    exists (U ++ newU), (E ++ newE). split; [done|]. split; [done|].
    rewrite Hinit. exists U, E, newU, newE. rewrite Hst. done.
  - eapply (initializeEmbeddings_sizes fuel) in Hrun; [|done].
    destruct Hrun as (U & E & Hw' & LU & LE & SU & SE).
    simpl in LU, LE, SU, SE. rewrite Hw'. unfold prepared. simpl.
    split; [|exists w1; split; [done|by rewrite Hs1]].
    split; [by exists cs|]. repeat (split; [done|]).
    exists U, E. rewrite Hinit. done.
Qed.

Lemma fit_prepare_prepared fuel data w w' :
  fit_prepare fuel data w = (Return tt, w') -> prepared (this w) (this w').
Proof. intros H. by destruct (fit_prepare_inv fuel data w w' H). Qed.

Lemma fit_unfold fuel data w w' :
  data <> [] -> fit_prepare fuel data w = (Return tt, w') ->
  fit fuel data w = fit_train fuel data w'.
Proof.
  intros Hd Hp. unfold fit. destruct (decide (length data = 0)) as [H0|_].
  - by destruct data.
  - unfold mbind at 1, Eff_bind, eff_bind. by rewrite Hp.
Qed.

Lemma fit_inv fuel data w w' :
  data <> [] -> fit fuel data w = (Return tt, w') ->
  exists w1, fit_prepare fuel data w = (Return tt, w1)
             /\ fit_train fuel data w1 = (Return tt, w').
Proof.
  intros Hd. unfold fit. destruct (decide (length data = 0)) as [H0|_].
  - by destruct data.
  - unfold mbind at 1, Eff_bind, eff_bind.
    destruct (fit_prepare fuel data w) as [[[]| |] w1]; try discriminate.
    intros H. by exists w1.
Qed.

End FitFacts.

(** C3.  When the registration and sizing phases of a [fit] on an
    initialized model are over, each matrix is the matrix from before the
    call followed by the rows created for the new slots: every row that was
    there is still at its slot, with the same numbers, and the new rows come
    after all of them.  The optimization phase starts from that state. *)
Theorem growing_preserves_prior_rows {NE : NumericEngine} (fuel : nat)
    (data : list Interaction) (w w' : World) (U E : Matrix) :
  _initialized (this w) = true ->
  userEmbeddings (this w) = Some U ->
  entityEmbeddings (this w) = Some E ->
  data <> [] ->
  fit_prepare fuel data w = (Return tt, w') ->
  exists newUsers newEntities : Matrix,
    userEmbeddings (this w') = Some (U ++ newUsers)
    /\ entityEmbeddings (this w') = Some (E ++ newEntities)
    /\ (forall s row, U !! s = Some row ->
          (U ++ newUsers) !! s = Some row)
    /\ (forall s row, E !! s = Some row ->
          (E ++ newEntities) !! s = Some row)
    /\ length newUsers
       = length (Storage.getAllUsers (storage (this w'))) - length U
    /\ length newEntities
       = length (Storage.getAllEntities (storage (this w'))) - length E
    /\ fit fuel data w = fit_train fuel data w'.
Proof.
  intros Hinit HU HE Hd Hrun.
  pose proof (fit_unfold fuel data w w' Hd Hrun) as Hfit.
  apply fit_prepare_prepared in Hrun
    as (_ & _ & _ & _ & _ & _ & _ & U' & E' & HU' & HE' & Hrows).
  rewrite Hinit in Hrows.
  destruct Hrows as (U0 & E0 & newU & newE & HU0 & HE0 & -> & -> & LU & LE & _).
  assert (U0 = U) as -> by congruence.
  assert (E0 = E) as -> by congruence.
  exists newU, newE. repeat split; try done.
  - intros s row Hs. by apply lookup_app_l_Some.
  - intros s row Hs. by apply lookup_app_l_Some.
Qed.

(* ===================================================================== *)
(** * The optimization phase *)
(* ===================================================================== *)

Section TrainFacts.
Context {NE : NumericEngine} {OS : OptimizerShape NE}.

Lemma trained_refl M : trained M M.
Proof. split; [apply frame_refl|done]. Qed.

Lemma train_trained M0 it :
  ensures (train it) (fun w => trained M0 (this w))
    (fun _ w' => trained M0 (this w')).
Proof.
  intros w [] w' HT Hrun. unfold train in Hrun. run_eff Hrun.
  destruct (Storage.getUserIndex (user it) (storage (this w))) as [u|];
    [|by injection Hrun as <-].
  destruct (Storage.getEntityIndex (entity it) (storage (this w))) as [e|];
    [|by injection Hrun as <-].
  run_eff Hrun.
  destruct (userEmbeddings (this w)) as [U|] eqn:HU; [|discriminate Hrun].
  simpl in Hrun.
  destruct (tf_slice_row U u _); try discriminate Hrun. simpl in Hrun.
  destruct (entityEmbeddings (this w)) as [E|] eqn:HE; [|discriminate Hrun].
  simpl in Hrun.
  destruct (tf_slice_row E e _); try discriminate Hrun. simpl in Hrun.
  destruct (minimize _ U E u e _ _) as [[[o U'] E'] ok] eqn:Hmin.
  apply minimize_shape in Hmin as [SU SE].
  destruct ok; [|discriminate Hrun].
  injection Hrun as <-. simpl.
  destruct HT as (Hfr & HsU & HsE). split; [exact Hfr|].
  rewrite <- HsU, <- HsE, HU, HE. simpl. by rewrite SU, SE.
Qed.

Lemma trainEpochInBatches_trained M0 fuel data :
  ensures (trainEpochInBatches fuel data) (fun w => trained M0 (this w))
    (fun _ w' => trained M0 (this w')).
Proof.
  unfold trainEpochInBatches.
  eapply ensures_bind with (R := fun _ w => trained M0 (this w)).
  { by apply ensures_get_this. }
  intros M.
  eapply ensures_weaken;
    [apply (ensures_for_step (fun _ (_ : unit) w => trained M0 (this w)))
    | intros w Hw; exact Hw
    | intros a w (j & _ & Hw); exact Hw].
  intros i [] Hi.
  eapply ensures_weaken;
    [apply (ensures_for_of (fun w => trained M0 (this w)))
    | intros w Hw; exact Hw
    | intros [] w Hw; exact Hw].
  intros it _. apply train_trained.
Qed.

Lemma fit_train_trained M0 fuel data :
  ensures (fit_train fuel data) (fun w => trained M0 (this w))
    (fun _ w' => trained M0 (this w')).
Proof.
  unfold fit_train.
  eapply ensures_bind with (R := fun _ w => trained M0 (this w)).
  { by apply ensures_get_this. }
  intros M. apply (ensures_for_of (fun w => trained M0 (this w))).
  intros e _. apply trainEpochInBatches_trained.
Qed.

Lemma shape_of_rowCount t t' :
  shape_of t' = shape_of t -> rowCount t' = rowCount t.
Proof.
  destruct t as [rows|], t' as [rows'|]; simpl; try done.
  intros [= H]. by rewrite <- (length_fmap length rows'), H, length_fmap.
Qed.

Lemma shape_of_Some t' (rows : Matrix) :
  shape_of t' = shape_of (Some rows) ->
  exists rows', t' = Some rows' /\ length rows' = length rows
                /\ forall d, shaped d rows -> shaped d rows'.
Proof.
  destruct t' as [rows'|]; simpl; [|done]. intros [= H].
  exists rows'. split; [done|]. split.
  - by rewrite <- (length_fmap length rows'), H, length_fmap.
  - unfold shaped. intros d Hd.
    assert (Forall (fun n => n = d) (length <$> rows)) as Hn
      by (apply Forall_fmap; exact Hd).
    rewrite <- H in Hn. apply Forall_fmap in Hn. exact Hn.
Qed.

(** What a [fit] that returns leaves behind. *)
Lemma fit_returns fuel data w w' :
  data <> [] -> fit fuel data w = (Return tt, w') ->
  exists M1, prepared (this w) M1 /\ trained M1 (this w').
Proof.
  intros Hd Hfit. destruct (fit_inv fuel data w w' Hd Hfit) as (w1 & Hp & Ht).
  exists (this w1). split; [by apply fit_prepare_prepared in Hp|].
  eapply (fit_train_trained (this w1)); [|exact Ht]. apply trained_refl.
Qed.

End TrainFacts.

(* ===================================================================== *)
(** * Row counts after [fit] *)
(* ===================================================================== *)

(** C2, for a model that is not initialized or has no more rows than its
    index has slots.  After a [fit] with a non-empty list that returns, the
    model is initialized, and the user matrix has as many rows as
    [getAllUsers()] has entries, the entity matrix as many as
    [getAllEntities()]. *)
Theorem fit_row_counts {NE : NumericEngine} {OS : OptimizerShape NE}
    (fuel : nat) (data : list Interaction) (w w' : World) :
  data <> [] ->
  (_initialized (this w) = true ->
   rowCount (userEmbeddings (this w))
     <= length (Storage.getAllUsers (storage (this w)))
   /\ rowCount (entityEmbeddings (this w))
     <= length (Storage.getAllEntities (storage (this w)))) ->
  fit fuel data w = (Return tt, w') ->
  _initialized (this w') = true
  /\ exists U E,
       userEmbeddings (this w') = Some U
       /\ entityEmbeddings (this w') = Some E
       /\ length U = length (Storage.getAllUsers (storage (this w')))
       /\ length E = length (Storage.getAllEntities (storage (this w'))).
Proof.
  intros Hd Hrows Hfit.
  destruct (fit_returns fuel data w w' Hd Hfit) as (M1 & HP & HT).
  destruct HP as ((cs & Hst) & _ & _ & _ & _ & _ & Hi1 & U1 & E1 & HU1 & HE1 & HP).
  destruct HT as ((Hst' & _ & _ & _ & _ & Hi') & HsU & HsE).
  rewrite HU1 in HsU. rewrite HE1 in HsE.
  apply shape_of_Some in HsU as (U & HU & LU & _).
  apply shape_of_Some in HsE as (E & HE & LE & _).
  split; [congruence|]. exists U, E. split; [done|]. split; [done|].
  rewrite Hst', LU, LE.
  destruct (run_length cs (storage (this w))) as [Gu Ge].
  rewrite <- Hst in Gu, Ge.
  unfold Storage.getAllUsers, Storage.getAllEntities in *.
  destruct (_initialized (this w)) eqn:Hinit.
  - destruct HP as (U0 & E0 & nU & nE & HU0 & HE0 & -> & -> & LnU & LnE & _).
    destruct (Hrows eq_refl) as [Ru Re].
    rewrite HU0 in Ru. rewrite HE0 in Re. simpl in Ru, Re.
    rewrite !length_app. lia.
  - by destruct HP as (-> & -> & _).
Qed.

Section ConsistentFacts.
Context {NE : NumericEngine} {OS : OptimizerShape NE}.

Lemma new_consistent options :
  opt_storage options = None -> consistent (new_Recommendation options).
Proof.
  intros Hs. unfold consistent, new_Recommendation. simpl. rewrite Hs. simpl.
  split; [apply StorageFacts.linked_empty|].
  split; [apply StorageFacts.linked_empty|]. discriminate.
Qed.

(** The sizing phase makes a consistent model ready. *)
Lemma prepared_ready M M1 : consistent M -> prepared M M1 -> ready M1.
Proof.
  intros (Lu & Le & HC).
  intros ((cs & Hst) & Hd1 & _ & _ & _ & _ & Hi1 & U1 & E1 & HU1 & HE1 & HP).
  destruct (StorageFacts.run_linked cs _ Lu Le) as [Lu1 Le1].
  rewrite <- Hst in Lu1, Le1.
  split; [|done]. split; [done|]. split; [done|].
  intros _. exists U1, E1. split; [done|]. split; [done|].
  unfold Storage.getAllUsers, Storage.getAllEntities in *.
  destruct (run_length cs (storage M)) as [Gu Ge].
  rewrite <- Hst in Gu, Ge. rewrite Hd1.
  destruct (_initialized M) eqn:Hinit.
  - destruct HP as (U0 & E0 & nU & nE & HU0 & HE0 & -> & -> & LnU & LnE & SnU & SnE).
    destruct (HC eq_refl) as (U0' & E0' & HU0' & HE0' & SU0 & SE0 & LU0 & LE0).
    assert (U0' = U0) as -> by congruence.
    assert (E0' = E0) as -> by congruence.
    split; [by apply shaped_app|]. split; [by apply shaped_app|].
    rewrite !length_app. lia.
  - destruct HP as (HlU & HlE & SU1 & SE1). done.
Qed.

(** Training keeps a ready model ready. *)
Lemma trained_ready M0 M : ready M0 -> trained M0 M -> ready M.
Proof.
  intros [(Lu & Le & HC) Hi] ((Hst & Hd & _ & _ & _ & Hi') & HsU & HsE).
  destruct (HC Hi) as (U0 & E0 & HU0 & HE0 & SU0 & SE0 & LU0 & LE0).
  rewrite HU0 in HsU. rewrite HE0 in HsE.
  apply shape_of_Some in HsU as (U & HU & LU & SU).
  apply shape_of_Some in HsE as (E & HE & LE & SE).
  split; [|congruence]. unfold consistent. rewrite Hst, Hd.
  split; [done|]. split; [done|]. intros _. exists U, E.
  split; [done|]. split; [done|]. split; [by apply SU|].
  split; [by apply SE|]. lia.
Qed.

(** A [fit] that returns keeps a consistent model consistent. *)
Lemma fit_consistent fuel data w w' :
  consistent (this w) -> fit fuel data w = (Return tt, w') ->
  consistent (this w').
Proof.
  intros HC Hfit. destruct data as [|it data].
  { by injection Hfit as <-. }
  assert (it :: data <> []) as Hd by done.
  destruct (fit_returns fuel _ w w' Hd Hfit) as (M1 & HP & HT).
  by destruct (trained_ready M1 (this w') (prepared_ready _ _ HC HP) HT).
Qed.

End ConsistentFacts.

(* ===================================================================== *)
(** * The initialization flag *)
(* ===================================================================== *)

Section Always.
Context {NE : NumericEngine}.





















End Always.



Lemma Z_minimize_shape o U E u e d r o' U' E' ok :
  Z_minimize o U E u e d r = (o', U', E', ok) ->
  length <$> U' = length <$> U /\ length <$> E' = length <$> E.
Proof.
  unfold Z_minimize. destruct (decide _); [|by intros [= _ <- <- _]].
  intros [= _ <- <- _].
  split; apply list_eq; intros i;
    rewrite !list_lookup_fmap, list_lookup_imap;
    (destruct (_ !! i) as [row|]; simpl; [|done]);
    (destruct (decide _); [by rewrite length_fmap|done]).
Qed.

#[global] Instance ZEngine_shape : OptimizerShape ZEngine.
Proof. split. exact Z_minimize_shape. Qed.

(* ===================================================================== *)
(** * The round trip through [export] and [from] *)
(* ===================================================================== *)

Section RoundTrip.
Context {NE : NumericEngine}.

Lemma foldl_insert_union (es : list (Id * nat)) (m0 : gmap Id nat) :
  NoDup es.*1 ->
  foldl (fun m e => <[e.1 := e.2]> m) m0 es = list_to_map es ∪ m0.
Proof.
  revert m0. induction es as [|[k v] es IH]; intros m0 Hnd.
  - simpl. by rewrite (left_id_L ∅ (∪)).
  - rewrite fmap_cons in Hnd. apply NoDup_cons in Hnd as [Hk Hnd].
    simpl. rewrite (IH _ Hnd).
    rewrite <- insert_union_l. symmetry. apply insert_union_r.
    by apply not_elem_of_list_to_map_1.
Qed.

Lemma map_from_entries_entries (m : gmap Id nat) :
  Js.map_from_entries (Js.map_entries m) = m.
Proof.
  unfold Js.map_from_entries, Js.map_entries.
  rewrite foldl_insert_union by apply NoDup_fst_map_to_list.
  by rewrite (right_id_L ∅ (∪)), list_to_map_to_list.
Qed.

Lemma importData_exportData st :
  Storage.importData (Storage.exportData st) = st.
Proof.
  destruct st as [um em ru re].
  unfold Storage.importData, Storage.exportData. simpl.
  by rewrite !map_from_entries_entries.
Qed.

(** Rows of one length are the rows of their concatenation. *)
Lemma reshape_rows {A} d (t : list (list A)) :
  shaped d t -> reshape (replicate (length t) d) (mjoin t) = t.
Proof.
  induction t as [|r t IH]; intros Hs; [done|].
  apply Forall_cons in Hs as [<- Hs]. simpl.
  by rewrite take_app_length, drop_app_length, (IH Hs).
Qed.

Lemma shaped_join_length {A} d (t : list (list A)) :
  shaped d t -> length (mjoin t) = length t * d.
Proof.
  induction t as [|r t IH]; intros Hs; [done|].
  apply Forall_cons in Hs as [<- Hs]. simpl.
  by rewrite length_app, (IH Hs).
Qed.

(** An array with rows of one length holds as many numbers as its inferred
    shape says. *)
Lemma shaped_well_sized d (values : list (list number)) :
  shaped d values -> well_sized values.
Proof.
  intros Hs. unfold well_sized, inferred_rows, inferred_columns.
  rewrite (shaped_join_length d values Hs).
  destruct values as [|r values]; [simpl; lia|].
  by apply Forall_cons in Hs as [<- _].
Qed.

(** Reading a tensor and rounding what was read gives its elements. *)
Lemma fround_widen_rows (t : Matrix) :
  fround <$> mjoin ((fun row : list float32 => widen <$> row) <$> t)
  = mjoin t.
Proof.
  induction t as [|r t IH]; [done|].
  rewrite fmap_cons.
  change (fround <$> (widen <$> r)
                     ++ mjoin ((fun row : list float32 => widen <$> row)
                               <$> t)
          = r ++ mjoin t).
  rewrite fmap_app, IH. f_equal.
  rewrite <- list_fmap_compose. rewrite <- (list_fmap_id r) at 2.
  apply list_fmap_ext. intros i x _. apply fround_widen.
Qed.

Lemma tensor_rows_widen d (t : Matrix) :
  shaped d t ->
  tensor_rows ((fun row : list float32 => widen <$> row) <$> t) = t.
Proof.
  intros Hs. unfold tensor_rows, inferred_rows, inferred_columns.
  rewrite fround_widen_rows, length_fmap.
  destruct t as [|r t]; [done|].
  pose proof Hs as [Hr _]%Forall_cons. simpl head. simpl default.
  rewrite length_fmap, Hr. by apply reshape_rows.
Qed.

Lemma populated_array (t : Matrix) :
  populated t ->
  tf_array t = (fun row : list float32 => widen <$> row) <$> t.
Proof.
  intros [Hne (d & Hd & Hs)]. destruct t as [|r t]; [done|]. simpl.
  apply Forall_cons in Hs as [Hr _].
  destruct (length r =? 0) eqn:E; [|done]. apply Nat.eqb_eq in E. lia.
Qed.

(** A tensor with a row and a column comes back from the array that it is
    read into. *)
Lemma populated_tensor2d (t : Matrix) :
  populated t -> tf_tensor2d (tf_array t) = Return t.
Proof.
  intros Hp. rewrite (populated_array t Hp).
  destruct Hp as [Hne (d & Hd & Hs)].
  rewrite tensor2d_well_sized.
  - by rewrite (tensor_rows_widen d t Hs).
  - by destruct t.
  - apply (shaped_well_sized d). unfold shaped in *.
    apply Forall_fmap. eapply Forall_impl; [exact Hs|].
    intros row Hrow. simpl. by rewrite length_fmap.
Qed.

End RoundTrip.

Section RoundTripState.
Context {NE : NumericEngine}.

(** The model that [from] builds from the document that [export] returns
    has the index, the matrices and the embedding size of the exported
    one. *)
Lemma export_from_state (M : Recommendation) (U E : Matrix)
    (st : option InMemoryStorage) :
  _initialized M = true ->
  userEmbeddings M = Some U -> populated U ->
  entityEmbeddings M = Some E -> populated E ->
  exists D M',
    export M = Return D /\ from D st = Return M'
    /\ storage M' = storage M
    /\ userEmbeddings M' = Some U /\ entityEmbeddings M' = Some E
    /\ embeddingSize M' = embeddingSize M
    /\ _initialized M' = true.
Proof.
  intros Hi HU PU HE PE.
  eexists. eexists. split.
  { unfold export. rewrite Hi, HU, HE. simpl. reflexivity. }
  unfold from. simpl.
  rewrite (populated_tensor2d U PU), (populated_tensor2d E PE). simpl.
  split; [reflexivity|].
  pose proof (importData_exportData (storage M)) as Hst.
  unfold Storage.exportData in Hst. simpl. by rewrite Hst.
Qed.

(** The answer to a query is a function of the index, the matrices and the
    embedding size. *)
Lemma queries_agree (M M' : Recommendation) :
  storage M' = storage M ->
  userEmbeddings M' = userEmbeddings M ->
  entityEmbeddings M' = entityEmbeddings M ->
  embeddingSize M' = embeddingSize M ->
  (forall user k, getEntities M' user k = getEntities M user k)
  /\ (forall entity k, getUsers M' entity k = getUsers M entity k).
Proof.
  intros Hs HU HE Hd. unfold getEntities, getUsers.
  by rewrite Hs, HU, HE, Hd.
Qed.

(** A consistent, initialized model with a user, an entity and a non-zero
    embedding size comes back consistent from the round trip. *)
Lemma round_trip_consistent (M : Recommendation)
    (st : option InMemoryStorage) :
  ready M -> 0 < embeddingSize M ->
  Storage.getAllUsers (storage M) <> [] ->
  Storage.getAllEntities (storage M) <> [] ->
  exists D M', export M = Return D /\ from D st = Return M' /\ ready M'.
Proof.
  intros [(Lu & Le & HC) Hi] Hd Hu He.
  destruct (HC Hi) as (U & E & HU & HE & SU & SE & LU & LE).
  assert (populated U) as PU.
  { split; [|by exists (embeddingSize M)].
    intros ->. by destruct (Storage.getAllUsers (storage M)). }
  assert (populated E) as PE.
  { split; [|by exists (embeddingSize M)].
    intros ->. by destruct (Storage.getAllEntities (storage M)). }
  destruct (export_from_state M U E st Hi HU PU HE PE)
    as (D & M' & HD & HM & Hs & HU' & HE' & Hd' & Hi').
  exists D, M'. split; [done|]. split; [done|]. split; [|done].
  unfold consistent. rewrite Hs, Hd'. split; [done|]. split; [done|].
  intros _. by exists U, E.
Qed.

(** A consistent model meets the condition on row counts. *)
Lemma consistent_rows (M : Recommendation) :
  consistent M -> _initialized M = true ->
  rowCount (userEmbeddings M) <= length (Storage.getAllUsers (storage M))
  /\ rowCount (entityEmbeddings M)
     <= length (Storage.getAllEntities (storage M)).
Proof.
  intros (_ & _ & HC) Hi.
  destruct (HC Hi) as (U & E & -> & -> & _ & _ & LU & LE). simpl. lia.
Qed.

(** [from] returns for a document whose two arrays have a row each and
    rows of one length. *)
Lemma from_returns (D : SerializedModel) (st : option InMemoryStorage)
    (du de : nat) :
  sm_userEmbeddings D <> [] -> shaped du (sm_userEmbeddings D) ->
  sm_entityEmbeddings D <> [] -> shaped de (sm_entityEmbeddings D) ->
  exists M, from D st = Return M.
Proof.
  intros Hu Su He Se. unfold from.
  rewrite (tensor2d_well_sized _ Hu (shaped_well_sized du _ Su)).
  rewrite (tensor2d_well_sized _ He (shaped_well_sized de _ Se)).
  by eexists.
Qed.

End RoundTripState.

(** C1, for a model whose two matrices have a row and a column at least.
    [export] returns a document, [from] returns a model from it, and that
    model answers every [getEntities] and every [getUsers] query as the
    exported model does: it has the same index, the same matrices and the
    same embedding size. *)
Theorem export_from_round_trip {NE : NumericEngine} (M : Recommendation)
    (U E : Matrix) (st : option InMemoryStorage) :
  _initialized M = true ->
  userEmbeddings M = Some U -> populated U ->
  entityEmbeddings M = Some E -> populated E ->
  exists D M',
    export M = Return D /\ from D st = Return M'
    /\ (forall user k, getEntities M' user k = getEntities M user k)
    /\ (forall entity k, getUsers M' entity k = getUsers M entity k)
    /\ storage M' = storage M
    /\ userEmbeddings M' = Some U /\ entityEmbeddings M' = Some E
    /\ embeddingSize M' = embeddingSize M
    /\ _initialized M' = true.
Proof.
  intros Hi HU PU HE PE.
  destruct (export_from_state M U E st Hi HU PU HE PE)
    as (D & M' & HD & HM & Hs & HU' & HE' & Hd' & Hi').
  destruct (queries_agree M M' Hs) as [HgE HgU]; [congruence..|].
  exists D, M'. by repeat (split; [done|]).
Qed.

(* ===================================================================== *)
(** * [fit] returns *)
(* ===================================================================== *)

Section Returns.
Context {NE : NumericEngine}.

Lemma returns_ret {A} (a : A) (P : World -> Prop) (Q : A -> World -> Prop) :
  (forall w, P w -> Q a w) -> returns (mret a) P Q.
Proof. intros H w HP. exists a, w. split; [done|by apply H]. Qed.

Lemma returns_bind {A B} (m : Eff A) (f : A -> Eff B) P R Q :
  returns m P R -> (forall a, returns (f a) (R a) Q) ->
  returns (m ≫= f) P Q.
Proof.
  intros Hm Hf w HP. destruct (Hm w HP) as (a & w1 & Hmw & HR).
  destruct (Hf a w1 HR) as (b & w2 & Hfw & HQ). exists b, w2.
  split; [|done]. unfold mbind, Eff_bind, eff_bind. by rewrite Hmw.
Qed.

Lemma returns_weaken {A} (m : Eff A) (P P' : World -> Prop)
    (Q Q' : A -> World -> Prop) :
  returns m P Q -> (forall w, P' w -> P w) ->
  (forall a w, Q a w -> Q' a w) -> returns m P' Q'.
Proof.
  intros Hm HP HQ w HP'. destruct (Hm w (HP w HP')) as (a & w' & Hr & Hq).
  exists a, w'. split; [done|by apply HQ].
Qed.

Lemma returns_get_this (P : World -> Prop) Q :
  (forall w, P w -> Q (this w) w) -> returns get_this P Q.
Proof. intros H w HP. exists (this w), w. split; [done|by apply H]. Qed.

Lemma returns_set_this f (P : World -> Prop) Q :
  (forall w, P w ->
     Q tt {| this := f (this w); random_pos := random_pos w |}) ->
  returns (set_this f) P Q.
Proof. intros H w HP. eexists _, _. split; [done|by apply H]. Qed.

Lemma returns_lift {A} (o : Outcome A) (a : A) (P : World -> Prop) Q :
  o = Return a -> (forall w, P w -> Q a w) -> returns (lift o) P Q.
Proof. intros -> H w HP. exists a, w. split; [done|by apply H]. Qed.

Lemma returns_for_step {S} (I : nat -> S -> World -> Prop)
    fuel n step (body : nat -> S -> Eff S) :
  0 < step ->
  (forall i acc, i < n ->
     returns (body i acc) (I i acc) (fun acc' => I (i + step) acc')) ->
  forall i acc, n - i < fuel ->
    returns (for_step fuel n step i body acc) (I i acc)
      (fun acc' w' => exists j, n <= j /\ I j acc' w').
Proof.
  intros Hstep Hbody. induction fuel as [|fuel IH]; intros i acc Hfuel; simpl.
  - lia.
  - destruct (decide (i < n)) as [Hlt|Hge].
    + eapply returns_bind; [by apply Hbody|]. intros acc'. apply IH. lia.
    + apply returns_ret. intros w HI. exists i. split; [lia|done].
Qed.

Lemma returns_for_of {A} (I : World -> Prop) (xs : list A)
    (body : A -> Eff unit) :
  (forall x, x ∈ xs -> returns (body x) I (fun _ => I)) ->
  returns (for_of xs body) I (fun _ => I).
Proof.
  induction xs as [|x xs IH]; intros Hbody; simpl.
  - by apply returns_ret.
  - eapply returns_bind.
    + apply Hbody. by left.
    + intros []. apply IH. intros y Hy. apply Hbody. by right.
Qed.

(** ** Registration *)

Lemma with_storage_id w : with_storage (storage (this w)) w = w.
Proof. by destruct w as [[] ?]. Qed.

Lemma for_of_register batch w :
  for_of batch register w
  = (Return tt,
     with_storage (Storage.run (calls_of batch) (storage (this w))) w).
Proof.
  revert w. induction batch as [|it batch IH]; intros w; simpl.
  - by rewrite with_storage_id.
  - unfold mbind, Eff_bind, eff_bind. simpl. by rewrite IH.
Qed.

Lemma take_slice {A} (l : list A) i n :
  take (i + n) l = take i l ++ Js.slice l i (i + n).
Proof.
  unfold Js.slice. replace (i + n - i) with n by lia.
  revert l. induction i as [|i IH]; intros l; simpl.
  - by rewrite drop_0.
  - destruct l as [|x l]; simpl.
    + by rewrite take_nil.
    + by rewrite IH.
Qed.

Lemma calls_of_app data1 data2 :
  calls_of (data1 ++ data2) = calls_of data1 ++ calls_of data2.
Proof. unfold calls_of. apply bind_app. Qed.

(** With a positive batch size the registration phase returns, having
    made the calls for every interaction, in order. *)
Lemma registration_returns fuel data w :
  0 < batchSize (this w) -> length data < fuel ->
  registerUsersAndEntitiesInBatches fuel data w
  = (Return tt,
     with_storage (Storage.run (calls_of data) (storage (this w))) w).
Proof.
  intros Hbs Hfuel. unfold registerUsersAndEntitiesInBatches.
  unfold mbind at 1, Eff_bind, eff_bind, get_this.
  set (bs := batchSize (this w)) in *.
  set (st := storage (this w)).
  assert (forall f i, length data - i < f ->
            for_step f (length data) bs i
              (fun i _ => for_of (Js.slice data i (i + bs)) register) tt
              (with_storage (Storage.run (calls_of (take i data)) st) w)
            = (Return tt,
               with_storage (Storage.run (calls_of data) st) w)) as Hloop.
  { induction f as [|f IH]; intros i Hf; simpl.
    - lia.
    - destruct (decide (i < length data)) as [Hlt|Hge].
      + unfold mbind, Eff_bind, eff_bind. rewrite for_of_register. simpl.
        rewrite <- run_app, <- calls_of_app, <- take_slice.
        rewrite <- (IH (i + bs)) by lia. reflexivity.
      + by rewrite take_ge by lia. }
  specialize (Hloop fuel 0). rewrite take_0 in Hloop.
  change (Storage.run (calls_of []) st) with st in Hloop.
  unfold st in Hloop at 1. rewrite with_storage_id in Hloop.
  apply Hloop. lia.
Qed.

(** ** Sizing *)

Lemma bind_Return {A B} (m : Eff A) (f : A -> Eff B) w a w' :
  m w = (Return a, w') -> (m ≫= f) w = f a w'.
Proof. intros H. unfold mbind, Eff_bind, eff_bind. by rewrite H. Qed.

Lemma createEmbeddingsInBatches_returns fuel totalSize d w :
  0 < batchSize (this w) -> totalSize < fuel ->
  exists t w',
    createEmbeddingsInBatches fuel totalSize d w = (Return t, w')
    /\ this w' = this w /\ length t = totalSize /\ shaped d t.
Proof.
  intros Hbs Hfuel.
  assert (exists t w',
            createEmbeddingsInBatches fuel totalSize d w = (Return t, w'))
    as (t & w' & Hrun).
  { unfold createEmbeddingsInBatches.
    destruct (decide (totalSize = 0)) as [->|Hn]; [by eexists _, _|].
    unfold mbind at 1, Eff_bind, eff_bind, get_this.
    destruct (returns_for_step (fun _ (_ : list Matrix) _ => True) fuel
                totalSize (batchSize (this w) `min` totalSize)
                (fun i batches =>
                   batch ← tf_randomNormal
                     ((batchSize (this w) `min` totalSize)
                        `min` (totalSize - i)) d;
                   mret (batches ++ [batch]))
                ltac:(lia)
                ltac:(intros i acc _ w0 _; by eexists _, _)
                0 [] ltac:(lia) w I) as (batches & w' & Hloop & _).
    rewrite (bind_Return _ _ _ _ _ Hloop). by eexists _, _. }
  exists t, w'. split; [done|].
  by apply (createEmbeddingsInBatches_rows fuel totalSize d (this w) w t w').
Qed.

Lemma concat2_shaped d (a b : Matrix) :
  shaped d a -> shaped d b -> tf_concat2 a b = Return (a ++ b).
Proof.
  intros Ha Hb. unfold tf_concat2. destruct a as [|r a]; [done|].
  rewrite (shaped_forallb d _ r); [done|by apply shaped_app|].
  by apply Forall_cons in Ha as [Hr _].
Qed.

Lemma initializeEmbeddings_returns fuel w :
  0 < batchSize (this w) ->
  length (Storage.getAllUsers (storage (this w))) < fuel ->
  length (Storage.getAllEntities (storage (this w))) < fuel ->
  exists w', initializeEmbeddings fuel w = (Return tt, w').
Proof.
  intros Hbs Hu He. unfold initializeEmbeddings.
  rewrite (bind_Return get_this _ w (this w) w eq_refl).
  destruct (createEmbeddingsInBatches_returns fuel _
              (embeddingSize (this w)) w Hbs Hu)
    as (U & w1 & HcU & Hw1 & _).
  rewrite (bind_Return _ _ _ _ _ HcU).
  rewrite (bind_Return (set_this _) _ w1 tt _ eq_refl).
  destruct (createEmbeddingsInBatches_returns fuel
              (length (Storage.getAllEntities (storage (this w))))
              (embeddingSize (this w))
              {| this := set_userEmbeddings U (this w1);
                 random_pos := random_pos w1 |})
    as (E & w2 & HcE & _); [by rewrite Hw1|done|].
  rewrite (bind_Return _ _ _ _ _ HcE).
  rewrite (bind_Return (set_this _) _ w2 tt _ eq_refl).
  by eexists.
Qed.

Lemma resizeEmbeddingsIfNeeded_returns fuel w U E :
  0 < batchSize (this w) ->
  userEmbeddings (this w) = Some U -> entityEmbeddings (this w) = Some E ->
  shaped (embeddingSize (this w)) U -> shaped (embeddingSize (this w)) E ->
  length (Storage.getAllUsers (storage (this w))) < fuel ->
  length (Storage.getAllEntities (storage (this w))) < fuel ->
  exists w', resizeEmbeddingsIfNeeded fuel w = (Return tt, w').
Proof.
  intros Hbs HU HE SU SE Hu He. unfold resizeEmbeddingsIfNeeded.
  rewrite (bind_Return get_this _ w (this w) w eq_refl).
  rewrite HU, HE.
  rewrite (bind_Return (lift _) _ w U w eq_refl).
  assert (exists w1,
    (if decide (length U < length (Storage.getAllUsers (storage (this w))))
     then
       newUsers ← createEmbeddingsInBatches fuel
         (length (Storage.getAllUsers (storage (this w))) - length U)
         (embeddingSize (this w));
       U0 ← lift (tf_concat2 U newUsers);
       set_this (set_userEmbeddings U0)
     else mret tt) w = (Return tt, w1)
    /\ batchSize (this w1) = batchSize (this w)) as (w1 & Hw1 & Hbs1).
  { destruct (decide _) as [Hlt|Hge]; [|by exists w].
    destruct (createEmbeddingsInBatches_returns fuel
                (length (Storage.getAllUsers (storage (this w))) - length U)
                (embeddingSize (this w)) w Hbs ltac:(lia))
      as (nU & w1 & Hc & Hw1 & _ & SnU).
    rewrite (bind_Return _ _ _ _ _ Hc).
    rewrite (concat2_shaped _ U nU SU SnU).
    rewrite (bind_Return (lift _) _ w1 (U ++ nU) w1 eq_refl).
    eexists. split; [reflexivity|]. simpl. by rewrite Hw1. }
  rewrite (bind_Return _ _ _ _ _ Hw1).
  rewrite (bind_Return (lift _) _ w1 E w1 eq_refl).
  destruct (decide (length E < _)) as [Hlt|Hge]; [|exists w1; reflexivity].
  destruct (createEmbeddingsInBatches_returns fuel
              (length (Storage.getAllEntities (storage (this w))) - length E)
              (embeddingSize (this w)) w1 ltac:(lia) ltac:(lia))
    as (nE & w2 & Hc & _ & _ & SnE).
  rewrite (bind_Return _ _ _ _ _ Hc).
  rewrite (concat2_shaped _ E nE SE SnE).
  rewrite (bind_Return (lift _) _ w2 (E ++ nE) w2 eq_refl).
  by eexists.
Qed.

End Returns.

Section PrepareReturns.
Context {NE : NumericEngine}.

(** On a consistent model with a positive batch size, the registration and
    sizing phases of [fit] return once the fuel exceeds the number of
    interactions and the sizes that the index has after the registration;
    they leave the model consistent and initialized, with every identifier
    of the interactions registered. *)
Lemma fit_prepare_returns fuel data w :
  consistent (this w) -> 0 < batchSize (this w) ->
  let st' := Storage.run (calls_of data) (storage (this w)) in
  length data < fuel ->
  length (Storage.getAllUsers st') < fuel ->
  length (Storage.getAllEntities st') < fuel ->
  exists w',
    fit_prepare fuel data w = (Return tt, w')
    /\ consistent (this w') /\ _initialized (this w') = true
    /\ storage (this w') = st'.
Proof.
  intros HC Hbs st' Hfd Hfu Hfe.
  pose proof (registration_returns fuel data w Hbs Hfd) as Hreg.
  fold st' in Hreg. set (w1 := with_storage st' w) in *.
  assert (exists w2, fit_prepare fuel data w = (Return tt, w2)) as [w2 Hprep].
  { unfold fit_prepare. rewrite (bind_Return _ _ _ _ _ Hreg).
    rewrite (bind_Return get_this _ w1 (this w1) w1 eq_refl).
    change (_initialized (this w1)) with (_initialized (this w)).
    destruct (_initialized (this w)) eqn:Hinit.
    - destruct HC as (_ & _ & HC).
      destruct (HC Hinit) as (U & E & HU & HE & SU & SE & _).
      by apply (resizeEmbeddingsIfNeeded_returns fuel w1 U E).
    - by apply initializeEmbeddings_returns. }
  pose proof (fit_prepare_prepared fuel data w w2 Hprep) as HP.
  destruct (prepared_ready _ _ HC HP) as [HC2 Hi2].
  exists w2. split; [done|]. split; [done|]. split; [done|].
  destruct (fit_prepare_inv fuel data w w2 Hprep) as [_ (w1' & Hreg' & Hs)].
  rewrite Hs. rewrite Hreg in Hreg'. by injection Hreg' as <-.
Qed.

End PrepareReturns.

(* ===================================================================== *)
(** * Runs on the integer engine *)
(* ===================================================================== *)

Lemma sample_fit1 :
  fit 4 sample_data1 sample_world0 = (Return tt, sample_world1).
Proof. vm_compute. reflexivity. Qed.

Lemma sample_fit_prepare2 :
  fit_prepare 4 sample_data2 sample_world1 = (Return tt, sample_prepared2).
Proof. vm_compute. reflexivity. Qed.

(** The optimizer rejects the first step of a [fit] that has replaced an
    embedding variable to make room for a new identifier; the model is
    left with the rows appended. *)
Lemma sample_fit2_rejects :
  fit 4 sample_data2 sample_world1 = (Throw EngineError, sample_world2)
  /\ rowCount (userEmbeddings (this sample_world2)) = 3
  /\ rowCount (entityEmbeddings (this sample_world2)) = 3.
Proof.
  split; [vm_compute; reflexivity|].
  split; vm_compute; reflexivity.
Qed.

Lemma sample_fit3 :
  fit 4 sample_data3 sample_world1 = (Return tt, sample_world3).
Proof. vm_compute. reflexivity. Qed.

Lemma sample_world1_matrices :
  _initialized (this sample_world1) = true
  /\ userEmbeddings (this sample_world1) = Some [[1; 2]; [0; 1]]%Z
  /\ entityEmbeddings (this sample_world1) = Some [[4; 0]; [0; 1]]%Z
  /\ Storage.getAllUsers (storage (this sample_world1))
     = [Some (IdStr "u"); Some (IdNum 7)]
  /\ Storage.getAllEntities (storage (this sample_world1))
     = [Some (IdStr "e"); Some (IdStr "f")].
Proof.
  split; [vm_compute; reflexivity|].
  split; [vm_compute; reflexivity|].
  split; [vm_compute; reflexivity|].
  split; [vm_compute; reflexivity|].
  vm_compute; reflexivity.
Qed.

Lemma sample_world1_consistent : consistent (this sample_world1).
Proof.
  apply (fit_consistent 4 sample_data1 sample_world0).
  - apply new_consistent. reflexivity.
  - exact sample_fit1.
Qed.

Lemma sample_world1_rows :
  _initialized (this sample_world1) = true ->
  rowCount (userEmbeddings (this sample_world1))
    <= length (Storage.getAllUsers (storage (this sample_world1)))
  /\ rowCount (entityEmbeddings (this sample_world1))
    <= length (Storage.getAllEntities (storage (this sample_world1))).
Proof. intros _. vm_compute. split; repeat constructor. Qed.

Lemma fit_row_counts_witness :
  (sample_data3 <> []
   /\ (_initialized (this sample_world1) = true ->
       rowCount (userEmbeddings (this sample_world1))
         <= length (Storage.getAllUsers (storage (this sample_world1)))
       /\ rowCount (entityEmbeddings (this sample_world1))
         <= length (Storage.getAllEntities (storage (this sample_world1))))
   /\ fit 4 sample_data3 sample_world1 = (Return tt, sample_world3))
  /\ _initialized (this sample_world3) = true
  /\ exists U E,
       userEmbeddings (this sample_world3) = Some U
       /\ entityEmbeddings (this sample_world3) = Some E
       /\ length U = length (Storage.getAllUsers (storage (this sample_world3)))
       /\ length E
          = length (Storage.getAllEntities (storage (this sample_world3))).
Proof.
  assert (sample_data3 <> []) as H1 by discriminate.
  apply conj.
  - exact (conj H1 (conj sample_world1_rows sample_fit3)).
  - exact (fit_row_counts 4 sample_data3 sample_world1 sample_world3 H1
             sample_world1_rows sample_fit3).
Defined.

(** C2 as stated fails on a model loaded from a document with more rows
    than identifiers: [fit] returns, and the user matrix still has three
    rows for one user. *)
Lemma fit_after_from_keeps_surplus_rows :
  from surplus_doc None = Return surplus_model
  /\ fit 4 [interaction (IdStr "u") (IdStr "e")]
       {| this := surplus_model; random_pos := 0 |}
     = (Return tt, surplus_world')
  /\ rowCount (userEmbeddings (this surplus_world')) = 3
  /\ length (Storage.getAllUsers (storage (this surplus_world'))) = 1.
Proof.
  split; [vm_compute; reflexivity|].
  split; [vm_compute; reflexivity|].
  split; [vm_compute; reflexivity|].
  vm_compute; reflexivity.
Qed.

Lemma growing_preserves_prior_rows_witness :
  (_initialized (this sample_world1) = true
   /\ userEmbeddings (this sample_world1) = Some [[1; 2]; [0; 1]]%Z
   /\ entityEmbeddings (this sample_world1) = Some [[4; 0]; [0; 1]]%Z
   /\ sample_data2 <> []
   /\ fit_prepare 4 sample_data2 sample_world1
      = (Return tt, sample_prepared2))
  /\ exists newUsers newEntities : @Matrix ZEngine,
       userEmbeddings (this sample_prepared2)
         = Some ([[1; 2]; [0; 1]]%Z ++ newUsers)
       /\ entityEmbeddings (this sample_prepared2)
         = Some ([[4; 0]; [0; 1]]%Z ++ newEntities)
       /\ length newUsers
          = length (Storage.getAllUsers (storage (this sample_prepared2))) - 2
       /\ length newEntities
          = length (Storage.getAllEntities (storage (this sample_prepared2)))
            - 2.
Proof.
  destruct sample_world1_matrices as (H1 & H2 & H3 & _).
  assert (sample_data2 <> []) as H4 by discriminate.
  apply conj.
  - exact (conj H1 (conj H2 (conj H3 (conj H4 sample_fit_prepare2)))).
  - destruct (growing_preserves_prior_rows 4 sample_data2 sample_world1
                sample_prepared2 _ _ H1 H2 H3 H4 sample_fit_prepare2)
      as (nU & nE & HU & HE & _ & _ & LU & LE & _).
    exists nU, nE. exact (conj HU (conj HE (conj LU LE))).
Defined.

Lemma sample_world1_populated :
  populated ([[1; 2]; [0; 1]]%Z : @Matrix ZEngine)
  /\ populated ([[4; 0]; [0; 1]]%Z : @Matrix ZEngine).
Proof.
  split; (split; [discriminate|]); exists 2;
    (split; [lia|]); repeat constructor.
Qed.

Lemma export_from_round_trip_witness :
  (_initialized (this sample_world1) = true
   /\ userEmbeddings (this sample_world1) = Some [[1; 2]; [0; 1]]%Z
   /\ populated ([[1; 2]; [0; 1]]%Z : @Matrix ZEngine)
   /\ entityEmbeddings (this sample_world1) = Some [[4; 0]; [0; 1]]%Z
   /\ populated ([[4; 0]; [0; 1]]%Z : @Matrix ZEngine))
  /\ exists D M',
       export (this sample_world1) = Return D /\ from D None = Return M'
       /\ forall user k,
            getEntities M' user k = getEntities (this sample_world1) user k.
Proof.
  destruct sample_world1_matrices as (H1 & H2 & H3 & _).
  destruct sample_world1_populated as [P1 P2].
  apply conj.
  - exact (conj H1 (conj H2 (conj P1 (conj H3 P2)))).
  - destruct (export_from_round_trip (this sample_world1) _ _ None
                H1 H2 P1 H3 P2) as (D & M' & HD & HM & HG & _).
    exists D, M'. exact (conj HD (conj HM HG)).
Defined.

(** C1 as stated fails on an initialized model whose matrices have no
    element.  The model loaded from [no_reverse_doc] is not initialized; a
    [fit] initializes it with matrices sized by the empty reverse arrays;
    [export] then returns a document with empty arrays, which [from]
    rejects.  A model constructed with embedding size 0 is initialized by
    [fit] with rows of no column, which [export] writes as empty arrays as
    well. *)
Lemma round_trip_fails_without_rows :
  (from no_reverse_doc None = Return no_reverse_model
   /\ fit 4 [interaction (IdStr "u") (IdStr "e")]
        {| this := no_reverse_model; random_pos := 0 |}
      = (Return tt, no_reverse_world')
   /\ _initialized (this no_reverse_world') = true
   /\ userEmbeddings (this no_reverse_world') = Some []
   /\ export (this no_reverse_world') = Return no_rows_doc
   /\ sm_userEmbeddings no_rows_doc = []
   /\ from no_rows_doc None = Throw EngineError)
  /\ (fit 4 [interaction (IdStr "u") (IdStr "e")]
        {| this := new_Recommendation zero_width_options; random_pos := 0 |}
      = (Return tt, zero_width_world')
      /\ _initialized (this zero_width_world') = true
      /\ userEmbeddings (this zero_width_world') = Some [[]]
      /\ export (this zero_width_world') = Return zero_width_doc
      /\ sm_userEmbeddings zero_width_doc = []
      /\ from zero_width_doc None = Throw EngineError).
Proof.
  split.
  - split; [vm_compute; reflexivity|].
    split; [vm_compute; reflexivity|].
    split; [vm_compute; reflexivity|].
    split; [vm_compute; reflexivity|].
    split; [vm_compute; reflexivity|].
    split; vm_compute; reflexivity.
  - split; [vm_compute; reflexivity|].
    split; [vm_compute; reflexivity|].
    split; [vm_compute; reflexivity|].
    split; [vm_compute; reflexivity|].
    split; vm_compute; reflexivity.
Qed.



Lemma query_result_length_witness :
  (Storage.getUserIndex (IdNum 7) (storage (this sample_world1)) = Some 1
   /\ userEmbeddings (this sample_world1) = Some [[1; 2]; [0; 1]]%Z
   /\ entityEmbeddings (this sample_world1) = Some [[4; 0]; [0; 1]]%Z
   /\ tf_slice_row ([[1; 2]; [0; 1]]%Z : @Matrix ZEngine) 1
        (embeddingSize (this sample_world1)) = Return [0; 1]%Z
   /\ tf_matMul_vec ([[4; 0]; [0; 1]]%Z : @Matrix ZEngine) [0; 1]%Z
      = Return [0; 1]%Z)
  /\ getEntities (this sample_world1) (IdNum 7) 5
     = Return [Some (IdStr "f"); Some (IdStr "e")]
  /\ getEntities (this sample_world1) (IdNum 7) (-1)
     = Return [Some (IdStr "f")].
Proof.
  destruct sample_world1_matrices as (_ & H2 & H3 & _ & H5).
  assert (Storage.getUserIndex (IdNum 7) (storage (this sample_world1))
          = Some 1) as H1 by (vm_compute; reflexivity).
  assert (tf_slice_row ([[1; 2]; [0; 1]]%Z : @Matrix ZEngine) 1
            (embeddingSize (this sample_world1)) = Return [0; 1]%Z) as H4
    by (vm_compute; reflexivity).
  assert (tf_matMul_vec ([[4; 0]; [0; 1]]%Z : @Matrix ZEngine) [0; 1]%Z
          = Return [0; 1]%Z) as H6 by (vm_compute; reflexivity).
  apply conj; [exact (conj H1 (conj H2 (conj H3 (conj H4 H6))))|].
  apply conj.
  - destruct (proj1 (query_result_length (this sample_world1) 5)
                (IdNum 7) 1 _ _ _ _ H1 H2 H3 H4 H6) as (_ & Hq & _).
    rewrite Hq, H5. reflexivity.
  - destruct (proj1 (query_result_length (this sample_world1) (-1))
                (IdNum 7) 1 _ _ _ _ H1 H2 H3 H4 H6) as (_ & Hq & _).
    rewrite Hq, H5. reflexivity.
Defined.

Lemma unknown_id_empty_result_witness :
  Storage.getUserIndex (IdStr "nobody") (storage (this sample_world1)) = None
  /\ getEntities (this sample_world1) (IdStr "nobody") 3 = Return [].
Proof.
  assert (Storage.getUserIndex (IdStr "nobody")
            (storage (this sample_world1)) = None) as H
    by (vm_compute; reflexivity).
  exact (conj H
           (proj1 (unknown_id_empty_result (this sample_world1)
                     (IdStr "nobody") 3) H)).
Defined.

(* ===================================================================== *)
(** * Further properties of the identity index *)
(* ===================================================================== *)

Section IndexMore.

Lemma step_other_user st id id' :
  id' <> id ->
  Storage.getUserIndex id' (Storage.getOrCreateUserIndex id st).2
  = Storage.getUserIndex id' st.
Proof.
  intros Hne. unfold Storage.getUserIndex, Storage.getOrCreateUserIndex.
  destruct (userMap st !! id); simpl; [done|].
  by rewrite lookup_insert_ne.
Qed.

Lemma step_other_entity st id id' :
  id' <> id ->
  Storage.getEntityIndex id' (Storage.getOrCreateEntityIndex id st).2
  = Storage.getEntityIndex id' st.
Proof.
  intros Hne. unfold Storage.getEntityIndex, Storage.getOrCreateEntityIndex.
  destruct (entityMap st !! id); simpl; [done|].
  by rewrite lookup_insert_ne.
Qed.



Lemma first_seen_snoc l id :
  first_seen (l ++ [id])
  = if decide (id ∈ l) then first_seen l else first_seen l ++ [id].
Proof.
  unfold first_seen. rewrite reverse_snoc. simpl.
  destruct (decide_rel elem_of id (reverse l)) as [Hin|Hin];
    rewrite elem_of_reverse in Hin.
  - by rewrite decide_True.
  - rewrite decide_False by done. by rewrite reverse_cons.
Qed.

Lemma created_users_snoc cs c :
  created_users (cs ++ [c])
  = created_users cs
    ++ match c with Storage.CreateUser id => [id] | _ => [] end.
Proof. unfold created_users. rewrite omap_app. by destruct c. Qed.

Lemma created_entities_snoc cs c :
  created_entities (cs ++ [c])
  = created_entities cs
    ++ match c with Storage.CreateEntity id => [id] | _ => [] end.
Proof. unfold created_entities. rewrite omap_app. by destruct c. Qed.

Lemma run_first_seen cs :
  reverseUserMap (Storage.run cs Storage.empty)
    = Some <$> first_seen (created_users cs)
  /\ reverseEntityMap (Storage.run cs Storage.empty)
    = Some <$> first_seen (created_entities cs).
Proof.
  induction cs as [|c cs IH] using rev_ind; [done|].
  destruct IH as [IHu IHe].
  destruct (StorageFacts.run_linked cs Storage.empty
              StorageFacts.linked_empty StorageFacts.linked_empty)
    as [(Lu & _) (Le & _)].
  destruct (StorageFacts.run_dom cs Storage.empty) as [Du De].
  simpl in Du, De. rewrite dom_empty_L, (right_id_L ∅ (∪)) in Du, De.
  rewrite run_app, created_users_snoc, created_entities_snoc. simpl.
  set (st := Storage.run cs Storage.empty) in *.
  destruct c as [id|id]; simpl.
  - rewrite app_nil_r. split;
      [|unfold Storage.getOrCreateUserIndex;
        by destruct (userMap st !! id)].
    rewrite first_seen_snoc. unfold Storage.getOrCreateUserIndex.
    destruct (userMap st !! id) as [i|] eqn:Hid.
    + rewrite decide_True; [done|].
      apply (elem_of_list_to_set (C := gset Id)). rewrite <- Du.
      apply elem_of_dom. eauto.
    + rewrite decide_False.
      * simpl. rewrite <- Lu, StorageFacts.array_set_end, IHu.
        by rewrite fmap_app.
      * intros Hin. apply (elem_of_list_to_set (C := gset Id)) in Hin.
        rewrite <- Du in Hin. apply elem_of_dom in Hin as [? ?]. congruence.
  - rewrite app_nil_r. split;
      [unfold Storage.getOrCreateEntityIndex;
       by destruct (entityMap st !! id)|].
    rewrite first_seen_snoc. unfold Storage.getOrCreateEntityIndex.
    destruct (entityMap st !! id) as [i|] eqn:Hid.
    + rewrite decide_True; [done|].
      apply (elem_of_list_to_set (C := gset Id)). rewrite <- De.
      apply elem_of_dom. eauto.
    + rewrite decide_False.
      * simpl. rewrite <- Le, StorageFacts.array_set_end, IHe.
        by rewrite fmap_app.
      * intros Hin. apply (elem_of_list_to_set (C := gset Id)) in Hin.
        rewrite <- De in Hin. apply elem_of_dom in Hin as [? ?]. congruence.
Qed.

Lemma map_from_entries_lookup (es : list (Id * nat)) id :
  Js.map_from_entries es !! id = last_binding id es.
Proof.
  unfold Js.map_from_entries, last_binding.
  induction es as [|[k v] es IH] using rev_ind; [done|].
  rewrite foldl_snoc, filter_app. simpl.
  rewrite filter_cons, filter_nil. simpl.
  destruct (decide (k = id)) as [->|Hne].
  - by rewrite lookup_insert_eq, last_snoc.
  - rewrite lookup_insert_ne by done. by rewrite app_nil_r.
Qed.

End IndexMore.

(** X1.  Whatever the state of the index (fresh, imported, with holes),
    [getOrCreateUserIndex] returns a slot under which [getUserIndex] finds
    the identifier afterwards, and a second call returns the same slot and
    changes nothing; [getOrCreateEntityIndex] likewise. *)
Theorem getOrCreate_lookup_idempotent (st : InMemoryStorage) (id : Id) :
  let u := Storage.getOrCreateUserIndex id st in
  let e := Storage.getOrCreateEntityIndex id st in
  Storage.getUserIndex id u.2 = Some u.1
  /\ Storage.getOrCreateUserIndex id u.2 = u
  /\ Storage.getEntityIndex id e.2 = Some e.1
  /\ Storage.getOrCreateEntityIndex id e.2 = e.
Proof.
  unfold Storage.getOrCreateUserIndex, Storage.getOrCreateEntityIndex,
    Storage.getUserIndex, Storage.getEntityIndex.
  destruct (userMap st !! id) as [i|] eqn:Hu;
    destruct (entityMap st !! id) as [j|] eqn:He; simpl;
    rewrite ?Hu, ?He, ?lookup_insert_eq; done.
Qed.

(** X2.  Whatever the state of the index, a call for [id] leaves the lookup
    of every other identifier as it was, in both indexes, changes nothing
    of the other index, and never shortens an identifier list. *)
Theorem getOrCreate_changes_one_id (st : InMemoryStorage) (id id' : Id) :
  let u := (Storage.getOrCreateUserIndex id st).2 in
  let e := (Storage.getOrCreateEntityIndex id st).2 in
  (id' <> id -> Storage.getUserIndex id' u = Storage.getUserIndex id' st)
  /\ Storage.getEntityIndex id' u = Storage.getEntityIndex id' st
  /\ Storage.getAllEntities u = Storage.getAllEntities st
  /\ length (Storage.getAllUsers st) <= length (Storage.getAllUsers u)
  /\ (id' <> id ->
      Storage.getEntityIndex id' e = Storage.getEntityIndex id' st)
  /\ Storage.getUserIndex id' e = Storage.getUserIndex id' st
  /\ Storage.getAllUsers e = Storage.getAllUsers st
  /\ length (Storage.getAllEntities st) <= length (Storage.getAllEntities e).
Proof.
  intros u e. subst u e.
  destruct (StorageFacts.user_step id st) as (_ & _ & HuE & HuR).
  destruct (StorageFacts.entity_step id st) as (_ & _ & HeU & HeR).
  destruct (step_length st (Storage.CreateUser id)) as [Lu _].
  destruct (step_length st (Storage.CreateEntity id)) as [_ Le].
  simpl in Lu, Le.
  unfold Storage.getAllUsers, Storage.getAllEntities.
  split; [by apply step_other_user|].
  split; [unfold Storage.getEntityIndex; by rewrite HuE|].
  split; [done|]. split; [done|].
  split; [by apply step_other_entity|].
  split; [unfold Storage.getUserIndex; by rewrite HeU|]. done.
Qed.

(** X3.  [importData] of what [exportData] returns restores the index, for
    every state of it. *)
Theorem exportData_importData_round_trip (st : InMemoryStorage) :
  Storage.importData (Storage.exportData st) = st.
Proof. apply importData_exportData. Qed.

(** X4.  [importData] takes the data as they are: a lookup finds the slot of
    the last entry for the identifier (none if there is no entry), and the
    identifier lists are the given ones, whether or not they agree with the
    entries. *)
Theorem importData_lookup (data : SerializableStorageData) (id : Id) :
  Storage.getUserIndex id (Storage.importData data)
    = last_binding id (sd_userMap data)
  /\ Storage.getEntityIndex id (Storage.importData data)
    = last_binding id (sd_entityMap data)
  /\ Storage.getAllUsers (Storage.importData data) = sd_reverseUserMap data
  /\ Storage.getAllEntities (Storage.importData data)
     = sd_reverseEntityMap data.
Proof.
  unfold Storage.getUserIndex, Storage.getEntityIndex. simpl.
  by rewrite !map_from_entries_lookup.
Qed.

(** X5.  After any sequence of calls on a fresh index, [getAllUsers] lists
    the user identifiers asked for in the order in which they were first
    seen, and [getAllEntities] the entity identifiers. *)
Theorem getAll_in_order_of_first_sight (cs : list Storage.call) :
  Storage.getAllUsers (Storage.run cs Storage.empty)
    = Some <$> first_seen (created_users cs)
  /\ Storage.getAllEntities (Storage.run cs Storage.empty)
    = Some <$> first_seen (created_entities cs).
Proof. apply run_first_seen. Qed.

(* ===================================================================== *)
(** * Further properties of [fit] *)
(* ===================================================================== *)

Section FitMore.
Context {NE : NumericEngine}.

Lemma drop_slice {A} (l : list A) i n :
  drop i l = Js.slice l i (i + n) ++ drop (i + n) l.
Proof.
  apply (app_inv_head (take i l)).
  by rewrite take_drop, app_assoc, <- take_slice, take_drop.
Qed.

Lemma created_users_calls_of (data : list Interaction) :
  created_users (calls_of data) = user <$> data.
Proof.
  induction data as [|it data IH]; [done|].
  change (calls_of (it :: data))
    with ([Storage.CreateUser (user it); Storage.CreateEntity (entity it)]
          ++ calls_of data).
  unfold created_users in *. rewrite omap_app, IH. done.
Qed.

Lemma created_entities_calls_of (data : list Interaction) :
  created_entities (calls_of data) = entity <$> data.
Proof.
  induction data as [|it data IH]; [done|].
  change (calls_of (it :: data))
    with ([Storage.CreateUser (user it); Storage.CreateEntity (entity it)]
          ++ calls_of data).
  unfold created_entities in *. rewrite omap_app, IH. done.
Qed.

(** Whenever the registration loop returns, it has made the calls for the
    interactions from [i] on, in order, and changed nothing else. *)
Lemma registration_loop_exact data bs fuel :
  forall i w w1,
    for_step fuel (length data) bs i
      (fun i _ => for_of (Js.slice data i (i + bs)) register) tt w
    = (Return tt, w1) ->
    w1 = with_storage
           (Storage.run (calls_of (drop i data)) (storage (this w))) w.
Proof.
  induction fuel as [|fuel IH]; intros i w w1; simpl; [discriminate|].
  destruct (decide (i < length data)) as [Hlt|Hge].
  - rewrite (bind_Return _ _ _ _ _ (for_of_register _ w)).
    intros Hrun. apply IH in Hrun. rewrite Hrun.
    rewrite (drop_slice data i bs), calls_of_app, run_app. done.
  - intros [= <-]. rewrite drop_ge by lia.
    change (Storage.run (calls_of []) (storage (this w)))
      with (storage (this w)).
    by rewrite with_storage_id.
Qed.

Lemma registration_exact fuel data w w1 :
  registerUsersAndEntitiesInBatches fuel data w = (Return tt, w1) ->
  w1 = with_storage
         (Storage.run (calls_of data) (storage (this w))) w.
Proof.
  unfold registerUsersAndEntitiesInBatches.
  rewrite (bind_Return get_this _ w (this w) w eq_refl).
  intros Hrun. apply registration_loop_exact in Hrun. by rewrite drop_0 in Hrun.
Qed.

(** With a batch size of 0 the registration loop never ends, and leaves
    the state as it is. *)
Lemma registration_loop_stuck data fuel w :
  data <> [] ->
  for_step fuel (length data) 0 0
    (fun i _ => for_of (Js.slice data i (i + 0)) register) tt w
  = (OutOfFuel, w).
Proof.
  intros Hd. assert (0 < length data) as Hlen
    by (destruct data; [done|simpl; lia]).
  induction fuel as [|fuel IH]; simpl; [done|].
  rewrite decide_True by done.
  rewrite (bind_Return _ _ w tt w eq_refl). exact IH.
Qed.

Lemma bind_OutOfFuel {A B} (m : Eff A) (f : A -> Eff B) w w' :
  m w = (OutOfFuel, w') -> (m ≫= f) w = (OutOfFuel, w').
Proof. intros H. unfold mbind, Eff_bind, eff_bind. by rewrite H. Qed.

Lemma registration_stuck fuel data w :
  batchSize (this w) = 0 -> data <> [] ->
  registerUsersAndEntitiesInBatches fuel data w = (OutOfFuel, w).
Proof.
  intros Hbs Hd. unfold registerUsersAndEntitiesInBatches.
  rewrite (bind_Return get_this _ w (this w) w eq_refl), Hbs.
  by apply registration_loop_stuck.
Qed.

Lemma train_frame M0 it :
  ensures (train it) (fun w => frame M0 (this w))
    (fun _ w' => frame M0 (this w')).
Proof.
  intros w [] w' HT Hrun. unfold train in Hrun. run_eff Hrun.
  destruct (Storage.getUserIndex (user it) (storage (this w))) as [u|];
    [|by injection Hrun as <-].
  destruct (Storage.getEntityIndex (entity it) (storage (this w))) as [e|];
    [|by injection Hrun as <-].
  run_eff Hrun.
  destruct (userEmbeddings (this w)) as [U|] eqn:HU; [|discriminate Hrun].
  simpl in Hrun.
  destruct (tf_slice_row U u _); try discriminate Hrun. simpl in Hrun.
  destruct (entityEmbeddings (this w)) as [E|] eqn:HE; [|discriminate Hrun].
  simpl in Hrun.
  destruct (tf_slice_row E e _); try discriminate Hrun. simpl in Hrun.
  destruct (minimize _ U E u e _ _) as [[[o U'] E'] ok] eqn:Hmin.
  destruct ok; [|discriminate Hrun].
  injection Hrun as <-. exact HT.
Qed.

Lemma fit_train_frame M0 fuel data :
  ensures (fit_train fuel data) (fun w => frame M0 (this w))
    (fun _ w' => frame M0 (this w')).
Proof.
  unfold fit_train.
  eapply ensures_bind with (R := fun _ w => frame M0 (this w)).
  { by apply ensures_get_this. }
  intros M. apply (ensures_for_of (fun w => frame M0 (this w))).
  intros e _. unfold trainEpochInBatches.
  eapply ensures_bind with (R := fun _ w => frame M0 (this w)).
  { by apply ensures_get_this. }
  intros M'.
  eapply ensures_weaken;
    [apply (ensures_for_step (fun _ (_ : unit) w => frame M0 (this w)))
    | intros w Hw; exact Hw
    | intros a w (j & _ & Hw); exact Hw].
  intros i [] Hi.
  eapply ensures_weaken;
    [apply (ensures_for_of (fun w => frame M0 (this w)))
    | intros w Hw; exact Hw
    | intros [] w Hw; exact Hw].
  intros it _. apply train_frame.
Qed.

(** The index that a [fit] that returns leaves. *)
Lemma fit_storage fuel data w w' :
  fit fuel data w = (Return tt, w') ->
  storage (this w') = Storage.run (calls_of data) (storage (this w)).
Proof.
  intros Hfit. destruct data as [|it data].
  { unfold fit in Hfit. simpl in Hfit. by injection Hfit as <-. }
  destruct (fit_inv fuel (it :: data) w w' ltac:(done) Hfit)
    as (w1 & Hp & Ht).
  apply (fit_train_frame (this w1)) in Ht as (-> & _); [|apply frame_refl].
  apply fit_prepare_inv in Hp as (_ & w0 & Hreg & ->).
  apply registration_exact in Hreg. by rewrite Hreg.
Qed.


Lemma linked_run_length cs st :
  Index.linked (userMap st) (reverseUserMap st) ->
  Index.linked (entityMap st) (reverseEntityMap st) ->
  length (reverseUserMap (Storage.run cs st))
    <= length (reverseUserMap st) + length (created_users cs)
  /\ length (reverseEntityMap (Storage.run cs st))
    <= length (reverseEntityMap st) + length (created_entities cs).
Proof.
  revert st. induction cs as [|c cs IH]; intros st Lu Le; [simpl; lia|].
  destruct (StorageFacts.step_linked st c Lu Le) as [Lu' Le'].
  destruct (IH _ Lu' Le') as [IHu IHe]. simpl.
  assert (length (reverseUserMap (Storage.step st c))
            <= length (reverseUserMap st)
               + match c with Storage.CreateUser _ => 1 | _ => 0 end
          /\ length (reverseEntityMap (Storage.step st c))
            <= length (reverseEntityMap st)
               + match c with Storage.CreateEntity _ => 1 | _ => 0 end)
    as [Hu He].
  { destruct Lu as (Hlu & _), Le as (Hle & _).
    destruct c as [id|id]; simpl.
    - unfold Storage.getOrCreateUserIndex.
      destruct (userMap st !! id); simpl; [lia|].
      rewrite <- Hlu, StorageFacts.array_set_end, length_app. simpl. lia.
    - unfold Storage.getOrCreateEntityIndex.
      destruct (entityMap st !! id); simpl; [lia|].
      rewrite <- Hle, StorageFacts.array_set_end, length_app. simpl. lia. }
  unfold created_users, created_entities in *.
  destruct c; simpl in *; lia.
Qed.

End FitMore.



(** X7.  With a batch size of 0 and a non-empty list, [fit] does not
    return: the registration loop advances by 0, so that every amount of
    fuel is used up, with the model unchanged. *)
Theorem fit_batch_size_zero_diverges {NE : NumericEngine}
    (data : list Interaction) (w : World) :
  batchSize (this w) = 0 -> data <> [] ->
  forall fuel, fit fuel data w = (OutOfFuel, w).
Proof.
  intros Hbs Hd fuel. unfold fit.
  rewrite decide_False by (destruct data; [done|simpl; lia]).
  unfold fit_prepare.
  apply bind_OutOfFuel, bind_OutOfFuel. by apply registration_stuck.
Qed.

Lemma fit_batch_size_zero_diverges_witness :
  (batchSize (this zero_batch_world) = 0 /\ sample_data1 <> [])
  /\ forall fuel, fit fuel sample_data1 zero_batch_world
                  = (OutOfFuel, zero_batch_world).
Proof.
  assert (sample_data1 <> []) as H1 by discriminate.
  exact (conj (conj eq_refl H1)
           (fit_batch_size_zero_diverges sample_data1 zero_batch_world
              eq_refl H1)).
Defined.

(** X8.  On a consistent model with a batch size that is a positive whole
    number, the registration and sizing phases of [fit] return for every
    non-empty list (fuel beyond the number of interactions and of slots is
    enough) and leave the model consistent and initialized: what is left of
    the [fit] is its optimization phase, the only one in which it can
    reject. *)
Theorem fit_prepare_returns_on_consistent {NE : NumericEngine}
    (fuel : nat) (data : list Interaction) (w : World) :
  consistent (this w) -> 0 < batchSize (this w) -> data <> [] ->
  length data + length (Storage.getAllUsers (storage (this w)))
    + length (Storage.getAllEntities (storage (this w))) < fuel ->
  exists w',
    fit_prepare fuel data w = (Return tt, w')
    /\ fit fuel data w = fit_train fuel data w'
    /\ consistent (this w')
    /\ _initialized (this w') = true.
Proof.
  intros HC Hbs Hd Hfuel.
  pose proof HC as (Lu & Le & _).
  destruct (linked_run_length (calls_of data) (storage (this w)) Lu Le)
    as [Hu He].
  rewrite created_users_calls_of, length_fmap in Hu.
  rewrite created_entities_calls_of, length_fmap in He.
  unfold Storage.getAllUsers, Storage.getAllEntities in Hfuel.
  destruct (fit_prepare_returns fuel data w HC Hbs)
    as (w' & H1 & H2 & H3 & _).
  - lia.
  - unfold Storage.getAllUsers. lia.
  - unfold Storage.getAllEntities. lia.
  - exists w'. split; [done|]. split; [|done].
    by apply fit_unfold.
Qed.

Lemma fit_prepare_returns_on_consistent_witness :
  (consistent (this sample_world1) /\ 0 < batchSize (this sample_world1)
   /\ sample_data2 <> []
   /\ length sample_data2
      + length (Storage.getAllUsers (storage (this sample_world1)))
      + length (Storage.getAllEntities (storage (this sample_world1))) < 7)
  /\ exists w',
       fit_prepare 7 sample_data2 sample_world1 = (Return tt, w')
       /\ fit 7 sample_data2 sample_world1 = fit_train 7 sample_data2 w'
       /\ consistent (this w')
       /\ _initialized (this w') = true.
Proof.
  assert (0 < batchSize (this sample_world1)) as H2
    by (vm_compute; lia).
  assert (sample_data2 <> []) as Hd by discriminate.
  assert (length sample_data2
          + length (Storage.getAllUsers (storage (this sample_world1)))
          + length (Storage.getAllEntities (storage (this sample_world1)))
          < 7) as H3 by (vm_compute; lia).
  exact (conj (conj sample_world1_consistent (conj H2 (conj Hd H3)))
           (fit_prepare_returns_on_consistent 7 sample_data2 sample_world1
              sample_world1_consistent H2 Hd H3)).
Defined.

(** X9.  On a model that is initialized, a [fit] with a non-empty list that
    returns leaves in each matrix the larger of two numbers of rows: the
    number it had, and the number of slots of the index.  A matrix is
    never shortened. *)
Theorem fit_rows_max {NE : NumericEngine} {OS : OptimizerShape NE}
    (fuel : nat) (data : list Interaction) (w w' : World) :
  data <> [] -> _initialized (this w) = true ->
  fit fuel data w = (Return tt, w') ->
  rowCount (userEmbeddings (this w'))
    = rowCount (userEmbeddings (this w))
        `max` length (Storage.getAllUsers (storage (this w')))
  /\ rowCount (entityEmbeddings (this w'))
    = rowCount (entityEmbeddings (this w))
        `max` length (Storage.getAllEntities (storage (this w'))).
Proof.
  intros Hd Hinit Hfit.
  destruct (fit_returns fuel data w w' Hd Hfit) as (M1 & HP & HT).
  destruct HP
    as (_ & _ & _ & _ & _ & _ & _ & U1 & E1 & HU1 & HE1 & HP).
  destruct HT as ((Hst' & _) & HsU & HsE).
  apply shape_of_rowCount in HsU, HsE. rewrite HsU, HsE, HU1, HE1, Hst'.
  rewrite Hinit in HP.
  destruct HP as (U & E & nU & nE & -> & -> & -> & -> & LU & LE & _).
  simpl. rewrite !length_app, LU, LE. lia.
Qed.

Lemma reloaded_fit2 :
  fit 4 sample_data2 reloaded_world1 = (Return tt, reloaded_world2).
Proof. vm_compute. reflexivity. Qed.

Lemma fit_rows_max_witness :
  (sample_data2 <> [] /\ _initialized (this reloaded_world1) = true
   /\ fit 4 sample_data2 reloaded_world1 = (Return tt, reloaded_world2))
  /\ rowCount (userEmbeddings (this reloaded_world1)) = 2
  /\ rowCount (userEmbeddings (this reloaded_world2)) = 3
  /\ rowCount (userEmbeddings (this reloaded_world2))
     = rowCount (userEmbeddings (this reloaded_world1))
         `max` length (Storage.getAllUsers (storage (this reloaded_world2)))
  /\ rowCount (entityEmbeddings (this reloaded_world2))
     = rowCount (entityEmbeddings (this reloaded_world1))
         `max` length
                 (Storage.getAllEntities (storage (this reloaded_world2))).
Proof.
  assert (sample_data2 <> []) as H1 by discriminate.
  assert (_initialized (this reloaded_world1) = true) as H2
    by (vm_compute; reflexivity).
  assert (rowCount (userEmbeddings (this reloaded_world1)) = 2) as H3
    by (vm_compute; reflexivity).
  assert (rowCount (userEmbeddings (this reloaded_world2)) = 3) as H4
    by (vm_compute; reflexivity).
  exact (conj (conj H1 (conj H2 reloaded_fit2))
           (conj H3 (conj H4
              (fit_rows_max 4 sample_data2 reloaded_world1 reloaded_world2
                 H1 H2 reloaded_fit2)))).
Defined.

(** X10.  The optimization phase of [fit], when it returns, has changed
    the values of the embeddings and the optimizer at most: the index, the
    configuration, the initialization flag, and the number and the width of
    the rows of both matrices are as before. *)
Theorem fit_train_keeps_shapes {NE : NumericEngine} {OS : OptimizerShape NE}
    (fuel : nat) (data : list Interaction) (w w' : World) :
  fit_train fuel data w = (Return tt, w') ->
  storage (this w') = storage (this w)
  /\ embeddingSize (this w') = embeddingSize (this w)
  /\ learningRate (this w') = learningRate (this w)
  /\ epoch (this w') = epoch (this w)
  /\ batchSize (this w') = batchSize (this w)
  /\ _initialized (this w') = _initialized (this w)
  /\ shape_of (userEmbeddings (this w')) = shape_of (userEmbeddings (this w))
  /\ shape_of (entityEmbeddings (this w'))
     = shape_of (entityEmbeddings (this w)).
Proof.
  intros Hrun.
  apply (fit_train_trained (this w)) in Hrun; [|apply trained_refl].
  destruct Hrun as ((? & ? & ? & ? & ? & ?) & ? & ?). done.
Qed.

Lemma sample_fit_train3 :
  fit_train 4 sample_data3 sample_world1 = (Return tt, sample_world3).
Proof. vm_compute. reflexivity. Qed.

Lemma fit_train_keeps_shapes_witness :
  fit_train 4 sample_data3 sample_world1 = (Return tt, sample_world3)
  /\ storage (this sample_world3) = storage (this sample_world1)
  /\ embeddingSize (this sample_world3) = embeddingSize (this sample_world1)
  /\ learningRate (this sample_world3) = learningRate (this sample_world1)
  /\ epoch (this sample_world3) = epoch (this sample_world1)
  /\ batchSize (this sample_world3) = batchSize (this sample_world1)
  /\ _initialized (this sample_world3) = _initialized (this sample_world1)
  /\ shape_of (userEmbeddings (this sample_world3))
     = shape_of (userEmbeddings (this sample_world1))
  /\ shape_of (entityEmbeddings (this sample_world3))
     = shape_of (entityEmbeddings (this sample_world1)).
Proof.
  exact (conj sample_fit_train3
           (fit_train_keeps_shapes 4 sample_data3 sample_world1
              sample_world3 sample_fit_train3)).
Defined.

(** X11.  [fit] never changes the configuration: whenever it returns, the
    embedding size, the learning rate, the number of epochs and the batch
    size are the ones the model had before. *)
Theorem fit_keeps_configuration {NE : NumericEngine}
    (fuel : nat) (data : list Interaction) (w w' : World) :
  fit fuel data w = (Return tt, w') ->
  embeddingSize (this w') = embeddingSize (this w)
  /\ learningRate (this w') = learningRate (this w)
  /\ epoch (this w') = epoch (this w)
  /\ batchSize (this w') = batchSize (this w).
Proof.
  intros Hfit. destruct data as [|it data].
  { unfold fit in Hfit. simpl in Hfit. by injection Hfit as <-. }
  destruct (fit_inv fuel (it :: data) w w' ltac:(done) Hfit)
    as (w1 & Hp & Ht).
  apply (fit_train_frame (this w1)) in Ht; [|apply frame_refl].
  destruct Ht as (_ & -> & -> & -> & -> & _).
  apply fit_prepare_prepared in Hp.
  destruct Hp as (_ & -> & -> & -> & -> & _). done.
Qed.

Lemma fit_keeps_configuration_witness :
  fit 4 sample_data3 sample_world1 = (Return tt, sample_world3)
  /\ embeddingSize (this sample_world3) = embeddingSize (this sample_world1)
  /\ learningRate (this sample_world3) = learningRate (this sample_world1)
  /\ epoch (this sample_world3) = epoch (this sample_world1)
  /\ batchSize (this sample_world3) = batchSize (this sample_world1).
Proof.
  exact (conj sample_fit3
           (fit_keeps_configuration 4 sample_data3 sample_world1
              sample_world3 sample_fit3)).
Defined.

(* ===================================================================== *)
(** * Further properties of the queries *)
(* ===================================================================== *)

Section RankMore.
Context {NE : NumericEngine}.

Lemma entries_ids scores ids :
  length scores = length ids -> entry_id <$> entries scores ids = ids.
Proof.
  intros Hlen. apply list_eq. intros i.
  rewrite list_lookup_fmap, entries_lookup. unfold Js.array_get.
  destruct (scores !! i) as [s|] eqn:Hs, (ids !! i) as [x|] eqn:Hx;
    simpl; try done.
  - apply lookup_lt_Some in Hs. apply lookup_ge_None in Hx. lia.
  - apply lookup_lt_Some in Hx. apply lookup_ge_None in Hs. lia.
Qed.

Lemma rankTop_take scores ids count :
  exists n,
    rankTop scores ids count
    = take n (entry_id <$> Js.sort comparator (entries scores ids)).
Proof. unfold rankTop, Js.slice0. eexists. by rewrite fmap_take. Qed.

Lemma ranked_ids scores ids :
  length scores = length ids ->
  entry_id <$> Js.sort comparator (entries scores ids) ≡ₚ ids.
Proof.
  intros Hlen. rewrite <- (entries_ids scores ids Hlen) at 2.
  apply fmap_Permutation, sort_perm.
Qed.

Lemma rankTop_all scores ids count :
  (Z.of_nat (length scores) <= count)%Z ->
  rankTop scores ids count
  = entry_id <$> Js.sort comparator (entries scores ids).
Proof.
  intros Hc. unfold rankTop. rewrite slice0_nonneg by lia.
  rewrite take_ge; [done|]. rewrite sort_length, entries_length. lia.
Qed.

(** [rankTop] on distinct identifiers, one per score: no identifier is
    returned twice, every one returned is one of the given ones, and all
    of them are returned when [count] is not below their number. *)
Lemma rankTop_distinct scores ids count :
  length scores = length ids -> NoDup ids ->
  NoDup (rankTop scores ids count)
  /\ (forall x, x ∈ rankTop scores ids count -> x ∈ ids)
  /\ ((Z.of_nat (length ids) <= count)%Z ->
      rankTop scores ids count ≡ₚ ids).
Proof.
  intros Hlen Hnd. pose proof (ranked_ids scores ids Hlen) as Hperm.
  destruct (rankTop_take scores ids count) as [n Hn].
  split; [|split].
  - rewrite Hn. eapply sublist_NoDup; [|apply sublist_take].
    by rewrite Hperm.
  - intros x. rewrite Hn. intros Hx. rewrite <- Hperm.
    eapply elem_of_sublist; [exact Hx|apply sublist_take].
  - intros Hc. rewrite rankTop_all by lia. exact Hperm.
Qed.

Lemma linked_NoDup m r : Index.linked m r -> NoDup r.
Proof.
  intros (_ & Hmr & Hfull). apply NoDup_alt. intros i j x Hi Hj.
  destruct (Hfull i) as [id Hid]; [by eapply lookup_lt_Some|].
  rewrite Hi in Hid. injection Hid as ->.
  apply Hmr in Hi, Hj. congruence.
Qed.

Lemma linked_elem m r x :
  Index.linked m r -> x ∈ r -> exists id, x = Some id /\ is_Some (m !! id).
Proof.
  intros (_ & Hmr & Hfull) Hx. apply list_elem_of_lookup in Hx as [i Hi].
  destruct (Hfull i) as [id Hid]; [by eapply lookup_lt_Some|].
  rewrite Hi in Hid. injection Hid as ->. exists id. split; [done|].
  exists i. by apply Hmr.
Qed.

(** On a consistent, initialized model a query for a known identifier
    ranks the identifiers of the other kind by a score per slot. *)
Lemma getEntities_ranks M user :
  consistent M -> _initialized M = true ->
  is_Some (Storage.getUserIndex user (storage M)) ->
  exists scores,
    length scores = length (Storage.getAllEntities (storage M))
    /\ forall count,
         getEntities M user count
         = Return (rankTop scores (Storage.getAllEntities (storage M))
                     count).
Proof.
  intros (Lu & Le & Hinit) Hi [idx Hidx].
  destruct (Hinit Hi) as (U & E & HU & HE & SU & SE & LU & LE).
  assert (idx < length U) as Hlt.
  { rewrite LU. unfold Storage.getUserIndex in Hidx.
    apply Lu in Hidx. by eapply lookup_lt_Some. }
  destruct (slice_row_shaped _ U idx SU Hlt) as (v & Hrow & Hv).
  exists ((fun row => dot row v) <$> E). split; [by rewrite length_fmap|].
  intros count. unfold getEntities. rewrite Hidx, HU, HE. simpl.
  rewrite Hrow. simpl. by rewrite (matMul_vec_shaped _ E v SE Hv).
Qed.

Lemma getUsers_ranks M entity :
  consistent M -> _initialized M = true ->
  is_Some (Storage.getEntityIndex entity (storage M)) ->
  exists scores,
    length scores = length (Storage.getAllUsers (storage M))
    /\ forall count,
         getUsers M entity count
         = Return (rankTop scores (Storage.getAllUsers (storage M)) count).
Proof.
  intros (Lu & Le & Hinit) Hi [idx Hidx].
  destruct (Hinit Hi) as (U & E & HU & HE & SU & SE & LU & LE).
  assert (idx < length E) as Hlt.
  { rewrite LE. unfold Storage.getEntityIndex in Hidx.
    apply Le in Hidx. by eapply lookup_lt_Some. }
  destruct (slice_row_shaped _ E idx SE Hlt) as (v & Hrow & Hv).
  exists ((fun row => dot row v) <$> U). split; [by rewrite length_fmap|].
  intros count. unfold getUsers. rewrite Hidx, HU, HE. simpl.
  rewrite Hrow. simpl. by rewrite (matMul_vec_shaped _ U v SU Hv).
Qed.

Lemma filter_head_first {A} (P : A -> Prop) `{forall x, Decision (P x)}
    (l : list A) x rest :
  filter P l = x :: rest ->
  exists i, l !! i = Some x
            /\ forall j y, j < i -> l !! j = Some y -> ~ P y.
Proof.
  induction l as [|a l IH]; [done|]. rewrite filter_cons.
  destruct (decide (P a)) as [Ha|Ha].
  - intros [= -> _]. exists 0. split; [done|]. intros j y Hj. lia.
  - intros Hf. destruct (IH Hf) as (i & Hi & Hbefore).
    exists (S i). split; [done|]. intros [|j] y Hj; simpl.
    + by intros [= <-].
    + apply Hbefore. lia.
Qed.

Lemma slice0_prefix {A} (a : list A) (k k' : Z) :
  (0 <= k <= k')%Z ->
  Js.slice0 a k = take (Z.to_nat k) (Js.slice0 a k').
Proof.
  intros Hk. rewrite !slice0_nonneg by lia. rewrite take_take.
  f_equal. lia.
Qed.

Lemma rankTop_prefix scores ids (k k' : Z) :
  (0 <= k <= k')%Z ->
  rankTop scores ids k = take (Z.to_nat k) (rankTop scores ids k').
Proof.
  intros Hk. unfold rankTop. rewrite (slice0_prefix _ k k' Hk).
  by rewrite fmap_take.
Qed.

End RankMore.

(** X12.  On a consistent, initialized model, [getEntities] for a known
    user returns no identifier twice, returns only identifiers that have an
    entity slot (never a hole), and returns every registered entity when
    the count is not below their number; [getUsers] likewise.  Scores that
    are NaN do not change this. *)
Theorem queries_return_distinct_registered_ids {NE : NumericEngine}
    (M : Recommendation) (count : Z) :
  consistent M -> _initialized M = true ->
  (forall user, is_Some (Storage.getUserIndex user (storage M)) ->
     exists l, getEntities M user count = Return l
       /\ NoDup l
       /\ (forall x, x ∈ l ->
             exists id, x = Some id
               /\ is_Some (Storage.getEntityIndex id (storage M)))
       /\ ((Z.of_nat (length (Storage.getAllEntities (storage M)))
              <= count)%Z ->
           l ≡ₚ Storage.getAllEntities (storage M)))
  /\ (forall entity, is_Some (Storage.getEntityIndex entity (storage M)) ->
     exists l, getUsers M entity count = Return l
       /\ NoDup l
       /\ (forall x, x ∈ l ->
             exists id, x = Some id
               /\ is_Some (Storage.getUserIndex id (storage M)))
       /\ ((Z.of_nat (length (Storage.getAllUsers (storage M)))
              <= count)%Z ->
           l ≡ₚ Storage.getAllUsers (storage M))).
Proof.
  intros HC Hi. pose proof HC as (Lu & Le & _). split.
  - intros user Hu.
    destruct (getEntities_ranks M user HC Hi Hu) as (scores & Hlen & Hq).
    eexists. split; [apply Hq|].
    destruct (rankTop_distinct scores _ count Hlen (linked_NoDup _ _ Le))
      as (Hnd & Hin & Hall).
    split; [exact Hnd|]. split; [|exact Hall].
    intros x Hx. apply (linked_elem _ _ x Le), Hin, Hx.
  - intros entity He.
    destruct (getUsers_ranks M entity HC Hi He) as (scores & Hlen & Hq).
    eexists. split; [apply Hq|].
    destruct (rankTop_distinct scores _ count Hlen (linked_NoDup _ _ Lu))
      as (Hnd & Hin & Hall).
    split; [exact Hnd|]. split; [|exact Hall].
    intros x Hx. apply (linked_elem _ _ x Lu), Hin, Hx.
Qed.

Lemma queries_return_distinct_registered_ids_witness :
  (consistent (this sample_world1)
   /\ _initialized (this sample_world1) = true)
  /\ exists l,
       getEntities (this sample_world1) (IdStr "u") 5 = Return l
       /\ NoDup l
       /\ l ≡ₚ Storage.getAllEntities (storage (this sample_world1)).
Proof.
  destruct sample_world1_matrices as (H1 & _).
  apply conj.
  - exact (conj sample_world1_consistent H1).
  - destruct (queries_return_distinct_registered_ids (this sample_world1) 5
                sample_world1_consistent H1) as [HE _].
    destruct (HE (IdStr "u")) as (l & Hl & Hnd & _ & Hall).
    + vm_compute. eexists. reflexivity.
    + exists l. apply (conj Hl), (conj Hnd), Hall. vm_compute. discriminate.
Defined.

(** X13.  For scores that are not NaN and a count of at least 1, the first
    identifier that [rankTop] returns is the one of the earliest row with
    the greatest score: no score is greater than that row's, and every
    earlier row's score is smaller. *)
Theorem rankTop_first_is_earliest_maximum
    {NE : NumericEngine} {NO : NumberOrder NE}
    (scores : list number) (ids : list (option Id)) (count : Z) :
  Forall (fun s => num_is_nan s = false) scores ->
  scores <> [] -> (1 <= count)%Z ->
  exists i s,
    scores !! i = Some s
    /\ head (rankTop scores ids count) = Some (Js.array_get ids i)
    /\ (forall s', s' ∈ scores -> num_sign (num_sub s s') <> Lt)
    /\ (forall j s', j < i -> scores !! j = Some s' ->
          num_sign (num_sub s s') = Gt).
Proof.
  intros Hnan Hne Hcount.
  pose proof (entries_comparable scores ids Hnan) as Hcomp.
  pose proof (sort_perm comparator (entries scores ids)) as Hperm.
  pose proof (sort_sorted comparator comparable comparator_consistent
                _ Hcomp) as Hsorted.
  assert (Forall comparable (Js.sort comparator (entries scores ids)))
    as Hcomp' by (by rewrite Hperm).
  apply (sorted_descending _ Hcomp') in Hsorted.
  pose proof (fun e He =>
    sort_stable comparator comparable comparator_consistent e
      (entries scores ids) He Hcomp) as Hstable.
  unfold rankTop. rewrite slice0_nonneg by lia.
  destruct (Js.sort comparator (entries scores ids)) as [|x rest] eqn:Hs.
  { apply Permutation_nil_l in Hperm.
    apply (f_equal length) in Hperm. rewrite entries_length in Hperm.
    destruct scores; [done|discriminate]. }
  apply Forall_cons in Hcomp' as [Hx Hrest].
  apply StronglySorted_inv in Hsorted as [_ Hmax].
  specialize (Hstable x Hx). rewrite filter_cons in Hstable.
  assert (tied comparator x x = true) as Hxx
    by (unfold tied; by rewrite (cmp_refl _ _ comparator_consistent x Hx)).
  rewrite decide_True in Hstable by done. symmetry in Hstable.
  apply filter_head_first in Hstable as (i & Hi & Hbefore).
  rewrite entries_lookup in Hi.
  destruct (scores !! i) as [s|] eqn:Hsi; [|discriminate].
  injection Hi as Hxeq. exists i, s. split; [done|].
  assert (forall s', s' ∈ scores -> num_sign (num_sub s s') <> Lt) as Hge.
  { intros s' Hs'. apply list_elem_of_lookup in Hs' as [j Hj].
    assert ({| entry_id := Js.array_get ids j; entry_score := s' |}
              ∈ x :: rest) as Hin.
    { rewrite Hperm. apply list_elem_of_lookup. exists j.
      by rewrite entries_lookup, Hj. }
    apply elem_of_cons in Hin as [Heq|Hin].
    - rewrite <- Heq in Hx. unfold comparable in Hx. simpl in Hx.
      assert (s = s') as <- by (rewrite <- Heq in Hxeq; by injection Hxeq).
      by rewrite (sign_sub_refl s Hx).
    - rewrite Forall_forall in Hmax. specialize (Hmax _ Hin).
      unfold descending in Hmax. rewrite <- Hxeq in Hmax. exact Hmax. }
  split; [|split; [exact Hge|]].
  - destruct (Z.to_nat count) as [|n] eqn:Hn; [lia|].
    simpl. by rewrite <- Hxeq.
  - intros j s' Hj Hsj.
    assert (num_is_nan s = false /\ num_is_nan s' = false) as [Ns Ns'].
    { rewrite Forall_forall in Hnan.
      split; apply Hnan; apply list_elem_of_lookup; eauto. }
    specialize (Hbefore j {| entry_id := Js.array_get ids j;
                             entry_score := s' |} Hj).
    rewrite entries_lookup, Hsj in Hbefore. specialize (Hbefore eq_refl).
    unfold tied, comparator in Hbefore. rewrite <- Hxeq in Hbefore.
    simpl in Hbefore.
    assert (s' ∈ scores) as Hin by (apply list_elem_of_lookup; eauto).
    specialize (Hge s' Hin).
    rewrite (sign_sub_antisym s s' Ns Ns') in Hge |- *.
    destruct (num_sign (num_sub s' s)); simpl in *; done.
Qed.

Lemma rankTop_first_is_earliest_maximum_witness :
  let scores : list (@number ZEngine) := [2; 3; 3]%Z in
  let ids := [Some (IdStr "a"); Some (IdStr "b"); Some (IdStr "c")] in
  (Forall (fun s => @num_is_nan ZEngine s = false) scores
   /\ scores <> [] /\ (1 <= 2)%Z)
  /\ exists i s,
       scores !! i = Some s
       /\ head (rankTop scores ids 2) = Some (Js.array_get ids i)
       /\ (forall s', s' ∈ scores -> @num_sign ZEngine (num_sub s s') <> Lt).
Proof.
  intros scores ids.
  assert (Forall (fun s => @num_is_nan ZEngine s = false) scores) as H1
    by (repeat constructor).
  assert (scores <> []) as H2 by discriminate.
  assert (1 <= 2)%Z as H3 by lia.
  split; [done|].
  destruct (rankTop_first_is_earliest_maximum scores ids 2 H1 H2 H3)
    as (i & s & Hi & Hhead & Hmax & _).
  exists i, s. done.
Defined.

(** X14.  The count only cuts the ranking: for [0 <= k <= k'], whatever the
    model, if [getEntities] with count [k'] returns a list, then with count
    [k] it returns the first [k] identifiers of that list; [getUsers]
    likewise. *)
Theorem query_smaller_count_is_prefix {NE : NumericEngine}
    (M : Recommendation) (id : Id) (k k' : Z) (l' : list (option Id)) :
  (0 <= k <= k')%Z ->
  (getEntities M id k' = Return l' ->
   getEntities M id k = Return (take (Z.to_nat k) l'))
  /\ (getUsers M id k' = Return l' ->
      getUsers M id k = Return (take (Z.to_nat k) l')).
Proof.
  intros Hk. split.
  - unfold getEntities.
    destruct (Storage.getUserIndex id (storage M));
      [|intros [= <-]; by rewrite take_nil].
    destruct (userEmbeddings M); simpl; [|done].
    destruct (tf_slice_row _ _ _); simpl; try done.
    destruct (entityEmbeddings M); simpl; [|done].
    destruct (tf_matMul_vec _ _); simpl; try done.
    intros [= <-]. by rewrite (rankTop_prefix _ _ k k' Hk).
  - unfold getUsers.
    destruct (Storage.getEntityIndex id (storage M));
      [|intros [= <-]; by rewrite take_nil].
    destruct (entityEmbeddings M); simpl; [|done].
    destruct (tf_slice_row _ _ _); simpl; try done.
    destruct (userEmbeddings M); simpl; [|done].
    destruct (tf_matMul_vec _ _); simpl; try done.
    intros [= <-]. by rewrite (rankTop_prefix _ _ k k' Hk).
Qed.

Lemma query_smaller_count_is_prefix_witness :
  ((0 <= 1 <= 2)%Z
   /\ getEntities (this sample_world1) (IdStr "u") 2
      = Return [Some (IdStr "e"); Some (IdStr "f")])
  /\ getEntities (this sample_world1) (IdStr "u") 1
     = Return [Some (IdStr "e")].
Proof.
  assert (0 <= 1 <= 2)%Z as H1 by lia.
  assert (getEntities (this sample_world1) (IdStr "u") 2
          = Return [Some (IdStr "e"); Some (IdStr "f")]) as H2
    by (vm_compute; reflexivity).
  exact (conj (conj H1 H2)
           (proj1 (query_smaller_count_is_prefix (this sample_world1)
                     (IdStr "u") 1 2 _ H1) H2)).
Defined.

(* ===================================================================== *)
(** * Exporting a loaded model *)
(* ===================================================================== *)

Section LoadMore.
Context {NE : NumericEngine}.

Lemma reshape_shaped {A} n c (l : list A) :
  length l = n * c -> shaped c (reshape (replicate n c) l).
Proof.
  revert l. induction n as [|n IH]; intros l Hl; [constructor|].
  simpl. constructor.
  - rewrite length_take. simpl in Hl. lia.
  - apply IH. rewrite length_drop. simpl in Hl. lia.
Qed.

(** The tensor built from an array with as many numbers as its inferred
    shape says has that shape. *)
Lemma tensor_rows_shaped (values : list (list number)) :
  well_sized values ->
  length (tensor_rows values) = inferred_rows values
  /\ shaped (inferred_columns values) (tensor_rows values).
Proof.
  intros Hws. unfold tensor_rows. split.
  - by rewrite length_reshape, length_replicate.
  - apply reshape_shaped. by rewrite length_fmap.
Qed.

Lemma tensor_rows_array (values : list (list number)) :
  values <> [] -> well_sized values -> 0 < inferred_columns values ->
  tf_array (tensor_rows values)
  = (fun row : list float32 => widen <$> row) <$> tensor_rows values.
Proof.
  intros Hne Hws Hc. apply populated_array.
  destruct (tensor_rows_shaped values Hws) as [Hlen Hs].
  split; [|by exists (inferred_columns values)].
  intros Hnil. rewrite Hnil in Hlen. unfold inferred_rows in Hlen.
  by destruct values.
Qed.

Lemma tensor2d_Return_inv (values : list (list number)) U :
  tf_tensor2d values = Return U -> well_sized values ->
  values <> [] /\ U = tensor_rows values.
Proof.
  intros HU Hws. destruct values as [|r values]; [done|].
  split; [done|].
  rewrite tensor2d_well_sized in HU by done. by injection HU as <-.
Qed.

End LoadMore.

(** X15.  Take a document whose flag is set and whose two arrays each hold
    as many numbers as their number of rows times the length of their first
    row.  A model that [from] has built from it exports: the document it
    returns has the configuration and the two identifier lists of the
    loaded one, entries that build the same maps (with one entry per
    identifier), its flag set and version 1.0.0, whatever the version of
    the loaded document and the index passed to [from].  An array of the
    loaded document whose first row is not empty comes back with its
    numbers rounded to [float32], in rows of the length of the first
    row. *)
Theorem from_then_export {NE : NumericEngine} (D : SerializedModel)
    (st : option InMemoryStorage) (M : Recommendation) :
  from D st = Return M -> sm_initialized D = true ->
  well_sized (sm_userEmbeddings D) -> well_sized (sm_entityEmbeddings D) ->
  exists D',
    export M = Return D'
    /\ sm_config D' = sm_config D
    /\ sm_reverseUserMap D' = sm_reverseUserMap D
    /\ sm_reverseEntityMap D' = sm_reverseEntityMap D
    /\ Js.map_from_entries (sm_userMap D') = Js.map_from_entries (sm_userMap D)
    /\ Js.map_from_entries (sm_entityMap D')
       = Js.map_from_entries (sm_entityMap D)
    /\ NoDup (sm_userMap D').*1 /\ NoDup (sm_entityMap D').*1
    /\ sm_initialized D' = true
    /\ sm_version D' = "1.0.0"
    /\ (0 < inferred_columns (sm_userEmbeddings D) ->
        sm_userEmbeddings D'
        = (fun row : list float32 => widen <$> row)
            <$> tensor_rows (sm_userEmbeddings D))
    /\ (0 < inferred_columns (sm_entityEmbeddings D) ->
        sm_entityEmbeddings D'
        = (fun row : list float32 => widen <$> row)
            <$> tensor_rows (sm_entityEmbeddings D)).
Proof.
  unfold from. intros H Hinit WU WE.
  destruct (tf_tensor2d (sm_userEmbeddings D)) as [U| |] eqn:HU; try done.
  destruct (tf_tensor2d (sm_entityEmbeddings D)) as [E| |] eqn:HE; try done.
  simpl in H. injection H as <-. unfold export. simpl. rewrite Hinit. simpl.
  eexists. split; [reflexivity|]. simpl.
  split; [by destruct (sm_config D)|].
  split; [done|]. split; [done|].
  split; [apply map_from_entries_entries|].
  split; [apply map_from_entries_entries|].
  split; [apply NoDup_fst_map_to_list|].
  split; [apply NoDup_fst_map_to_list|].
  split; [done|]. split; [done|].
  split; intros Hc.
  - destruct (tensor2d_Return_inv _ _ HU WU) as [Hne ->].
    by apply tensor_rows_array.
  - destruct (tensor2d_Return_inv _ _ HE WE) as [Hne ->].
    by apply tensor_rows_array.
Qed.

Lemma from_then_export_witness :
  (from ragged_doc None
   = Return (returned (new_Recommendation no_options)
               (from ragged_doc None))
   /\ sm_initialized ragged_doc = true
   /\ well_sized (sm_userEmbeddings ragged_doc)
   /\ well_sized (sm_entityEmbeddings ragged_doc))
  /\ exists D',
       export (returned (new_Recommendation no_options)
                 (from ragged_doc None)) = Return D'
       /\ sm_config D' = sm_config ragged_doc
       /\ sm_version D' = "1.0.0"
       /\ sm_userEmbeddings D' = [[1; 2]; [3; 4]; [5; 6]]%Z.
Proof.
  assert (from ragged_doc None
          = Return (returned (new_Recommendation no_options)
                      (from ragged_doc None))) as H1
    by reflexivity.
  assert (sm_initialized ragged_doc = true) as H2 by reflexivity.
  assert (well_sized (sm_userEmbeddings ragged_doc)) as H3 by reflexivity.
  assert (well_sized (sm_entityEmbeddings ragged_doc)) as H4 by reflexivity.
  apply conj; [exact (conj H1 (conj H2 (conj H3 H4)))|].
  destruct (from_then_export ragged_doc None _ H1 H2 H3 H4)
    as (D' & HD & Hc & _ & _ & _ & _ & _ & _ & _ & Hv & HU & _).
  exists D'. apply (conj HD), (conj Hc), (conj Hv).
  apply HU. vm_compute. lia.
Defined.

(* ===================================================================== *)
(** * Loading the engine *)
(* ===================================================================== *)

Lemma try_modules_first {T} (node_require : string -> option T) ms :
  match try_modules node_require ms with
  | Some tf =>
      exists before m after,
        ms = before ++ m :: after /\ node_require m = Some tf
        /\ forall m', m' ∈ before -> node_require m' = None
  | None => forall m, m ∈ ms -> node_require m = None
  end.
Proof.
  induction ms as [|m ms IH]; simpl.
  - intros m Hm. by apply elem_of_nil in Hm.
  - destruct (node_require m) as [tf|] eqn:Hm.
    + exists [], m, ms. split; [done|]. split; [done|].
      intros m' Hm'. by apply elem_of_nil in Hm'.
    + destruct (try_modules node_require ms) as [tf|].
      * destruct IH as (before & m0 & after & -> & H0 & Hbefore).
        exists (m :: before), m0, after. split; [done|]. split; [done|].
        intros m' [->|Hm']%elem_of_cons; [done|by apply Hbefore].
      * intros m' [->|Hm']%elem_of_cons; [done|by apply IH].
Qed.

(** X16.  [loadTensorflow] returns what [require] gives for the first of
    the three packages, in the order GPU binding, CPU binding, plain
    JavaScript, that loads, without trying a later one; it throws exactly
    when none of the three loads. *)
Theorem loadTensorflow_first_that_loads {T : Type}
    (node_require : string -> option T) :
  match loadTensorflow node_require with
  | Some tf =>
      exists before m after,
        modules = before ++ m :: after /\ node_require m = Some tf
        /\ forall m', m' ∈ before -> node_require m' = None
  | None => forall m, m ∈ modules -> node_require m = None
  end.
Proof. apply try_modules_first. Qed.

(* ===================================================================== *)
(** * From a new model to recommendations *)
(* ===================================================================== *)

Section EndToEnd.
Context {NE : NumericEngine} {OS : OptimizerShape NE}.

Lemma first_seen_elem l id : id ∈ first_seen l <-> id ∈ l.
Proof.
  unfold first_seen.
  by rewrite elem_of_reverse, elem_of_remove_dups, elem_of_reverse.
Qed.

(** What a first [fit] of a new model with its own index leaves when it
    returns. *)
Lemma fit_new_model options data r fuel w' :
  opt_storage options = None -> data <> [] ->
  fit fuel data {| this := new_Recommendation options; random_pos := r |}
  = (Return tt, w') ->
  consistent (this w') /\ _initialized (this w') = true
  /\ storage (this w') = Storage.run (calls_of data) Storage.empty.
Proof.
  intros Hst Hd Hfit.
  set (w := {| this := new_Recommendation options; random_pos := r |}) in *.
  split; [|split].
  - apply (fit_consistent fuel data w w'); [|exact Hfit].
    apply (new_consistent _ Hst).
  - destruct (fit_returns fuel data w w' Hd Hfit) as (M1 & HP & HT).
    destruct HP as (_ & _ & _ & _ & _ & _ & Hi & _).
    destruct HT as ((_ & _ & _ & _ & _ & ->) & _). exact Hi.
  - rewrite (fit_storage fuel data w w' Hfit). simpl. by rewrite Hst.
Qed.

End EndToEnd.

(** X17.  A new model with its own index and whole numbers for its batch
    size and embedding size, once its first [fit], with a non-empty list,
    has returned, answers for every user of the list: [getEntities] returns
    distinct entities of the list, as many as the count allows out of the
    distinct entities of the list; [getUsers] for every entity of the list
    likewise. *)
Theorem new_model_fit_then_query
    {NE : NumericEngine} {OS : OptimizerShape NE}
    (options : RecommendationOptions) (data : list Interaction)
    (r fuel : nat) (w' : World) :
  opt_storage options = None -> data <> [] ->
  fit fuel data {| this := new_Recommendation options; random_pos := r |}
  = (Return tt, w') ->
  let bound (count : Z) (n : nat) : Z :=
    if (count <? 0)%Z then Z.max (Z.of_nat n + count) 0
    else Z.min count (Z.of_nat n) in
  (forall it count, it ∈ data ->
          exists l,
            getEntities (this w') (user it) count = Return l
            /\ NoDup l
            /\ (forall x, x ∈ l ->
                  exists it', it' ∈ data /\ x = Some (entity it'))
            /\ Z.of_nat (length l)
               = bound count (length (first_seen (entity <$> data))))
  /\ (forall it count, it ∈ data ->
          exists l,
            getUsers (this w') (entity it) count = Return l
            /\ NoDup l
            /\ (forall x, x ∈ l ->
                  exists it', it' ∈ data /\ x = Some (user it'))
            /\ Z.of_nat (length l)
               = bound count (length (first_seen (user <$> data)))).
Proof.
  intros Hst Hd Hfit bound.
  destruct (fit_new_model options data r fuel w' Hst Hd Hfit)
    as (HC & Hinit & Hstore).
  pose proof HC as (Lu & Le & _).
  destruct (run_first_seen (calls_of data)) as [Ru Re].
  rewrite created_users_calls_of in Ru.
  rewrite created_entities_calls_of in Re. rewrite <- Hstore in Ru, Re.
  destruct (StorageFacts.run_dom (calls_of data) Storage.empty) as [Du De].
  rewrite created_users_calls_of in Du.
  rewrite created_entities_calls_of in De. rewrite <- Hstore in Du, De.
  split.
  - intros it count Hit.
    assert (is_Some (Storage.getUserIndex (user it) (storage (this w'))))
      as Hknown.
    { apply elem_of_dom. rewrite Du.
      apply elem_of_union_l, elem_of_list_to_set.
      by apply list_elem_of_fmap_2. }
    destruct (getEntities_ranks (this w') (user it) HC Hinit Hknown)
      as (scores & Hlen & Hq).
    eexists. split; [apply Hq|].
    destruct (rankTop_distinct scores _ count Hlen (linked_NoDup _ _ Le))
      as (Hnd & Hin & _).
    split; [exact Hnd|]. split.
    + intros x Hx. apply Hin in Hx. unfold Storage.getAllEntities in Hx.
      rewrite Re in Hx. apply list_elem_of_fmap in Hx as (id & -> & Hid).
      apply first_seen_elem, list_elem_of_fmap in Hid as (it' & -> & Hit').
      eauto.
    + rewrite rankTop_length, Hlen. unfold Storage.getAllEntities.
      by rewrite Re, length_fmap.
  - intros it count Hit.
    assert (is_Some (Storage.getEntityIndex (entity it) (storage (this w'))))
      as Hknown.
    { apply elem_of_dom. rewrite De.
      apply elem_of_union_l, elem_of_list_to_set.
      by apply list_elem_of_fmap_2. }
    destruct (getUsers_ranks (this w') (entity it) HC Hinit Hknown)
      as (scores & Hlen & Hq).
    eexists. split; [apply Hq|].
    destruct (rankTop_distinct scores _ count Hlen (linked_NoDup _ _ Lu))
      as (Hnd & Hin & _).
    split; [exact Hnd|]. split.
    + intros x Hx. apply Hin in Hx. unfold Storage.getAllUsers in Hx.
      rewrite Ru in Hx. apply list_elem_of_fmap in Hx as (id & -> & Hid).
      apply first_seen_elem, list_elem_of_fmap in Hid as (it' & -> & Hit').
      eauto.
    + rewrite rankTop_length, Hlen. unfold Storage.getAllUsers.
      by rewrite Ru, length_fmap.
Qed.

Lemma new_model_fit_then_query_witness :
  (opt_storage sample_options = None /\ sample_data1 <> []
   /\ fit 4 sample_data1
        {| this := new_Recommendation sample_options; random_pos := 0 |}
      = (Return tt, sample_world1))
  /\ exists l,
       getEntities (this sample_world1) (IdStr "u") 1 = Return l
       /\ Z.of_nat (length l) = 1%Z.
Proof.
  assert (sample_data1 <> []) as H3 by discriminate.
  apply conj; [exact (conj eq_refl (conj H3 sample_fit1))|].
  destruct (new_model_fit_then_query sample_options sample_data1 0 4
              sample_world1 eq_refl H3 sample_fit1) as (HE & _).
  destruct (HE (interaction (IdStr "u") (IdStr "e")) 1%Z)
    as (l & Hl & _ & _ & Hlen).
  - apply elem_of_cons. by left.
  - exists l. split; [exact Hl|]. rewrite Hlen. vm_compute. reflexivity.
Defined.

(* ===================================================================== *)
(** * Fresh rows and repeated fits *)
(* ===================================================================== *)

Section SizingMore.
Context {NE : NumericEngine}.



End SizingMore.

(** X18.  With a batch size that is a positive whole number,
    [createEmbeddingsInBatches] returns a matrix of exactly [totalSize]
    rows of [embeddingDim] columns, whichever whole number the batch size
    is, and leaves the model as it is; for [totalSize = 0] it returns the
    matrix without rows and draws no random number. *)
Theorem createEmbeddingsInBatches_shape {NE : NumericEngine}
    (fuel totalSize embeddingDim : nat) (w : World) :
  0 < batchSize (this w) -> totalSize < fuel ->
  exists t w',
    createEmbeddingsInBatches fuel totalSize embeddingDim w = (Return t, w')
    /\ this w' = this w /\ length t = totalSize /\ shaped embeddingDim t
    /\ (totalSize = 0 -> t = [] /\ w' = w).
Proof.
  intros Hbs Hfuel.
  destruct (createEmbeddingsInBatches_returns fuel totalSize embeddingDim w
              Hbs Hfuel) as (t & w' & Hrun & Hthis & Hlen & Hshape).
  exists t, w'. repeat (split; [done|]).
  intros ->. unfold createEmbeddingsInBatches in Hrun. simpl in Hrun.
  by injection Hrun as <- <-.
Qed.

Lemma createEmbeddingsInBatches_shape_witness :
  (0 < batchSize (this sample_world0) /\ 5 < 6)
  /\ exists t w',
       createEmbeddingsInBatches 6 5 3 sample_world0 = (Return t, w')
       /\ length t = 5 /\ shaped 3 t.
Proof.
  assert (0 < batchSize (this sample_world0)) as H1 by (simpl; lia).
  assert (5 < 6) as H2 by lia.
  split; [done|].
  destruct (createEmbeddingsInBatches_shape 6 5 3 sample_world0 H1 H2)
    as (t & w' & Hrun & _ & Hlen & Hshape & _).
  exists t, w'. done.
Defined.



(* ===================================================================== *)
(** * The documents that [export] returns *)
(* ===================================================================== *)

(** X20.  On a consistent, initialized model [export] returns a document
    that is coherent: it carries the model's configuration, one map entry
    per identifier, [(id, i)] being an entry exactly when the identifier
    list has [id] at position [i], with no hole in the lists; and, if the
    embedding size is not 0, one row of that many numbers per identifier
    in each matrix. *)
Theorem export_document_coherent {NE : NumericEngine} (M : Recommendation) :
  consistent M -> _initialized M = true ->
  exists D,
    export M = Return D
    /\ sm_config D
       = {| cfg_epoch := epoch M; cfg_embeddingSize := embeddingSize M;
            cfg_learningRate := learningRate M;
            cfg_batchSize := batchSize M |}
    /\ NoDup (sm_userMap D).*1 /\ NoDup (sm_entityMap D).*1
    /\ length (sm_userMap D) = length (sm_reverseUserMap D)
    /\ length (sm_entityMap D) = length (sm_reverseEntityMap D)
    /\ (forall id i, (id, i) ∈ sm_userMap D
                     <-> sm_reverseUserMap D !! i = Some (Some id))
    /\ (forall id i, (id, i) ∈ sm_entityMap D
                     <-> sm_reverseEntityMap D !! i = Some (Some id))
    /\ (0 < embeddingSize M ->
        length (sm_userEmbeddings D) = length (sm_reverseUserMap D)
        /\ length (sm_entityEmbeddings D) = length (sm_reverseEntityMap D)
        /\ shaped (embeddingSize M) (sm_userEmbeddings D)
        /\ shaped (embeddingSize M) (sm_entityEmbeddings D)).
Proof.
  intros (Lu & Le & HC) Hinit.
  destruct (HC Hinit) as (U & E & HU & HE & SU & SE & LU & LE).
  destruct Lu as (Hlu & Hmu & _), Le as (Hle & Hme & _).
  unfold export. rewrite Hinit, HU, HE. simpl.
  eexists. split; [reflexivity|]. simpl. unfold Js.map_entries.
  split; [done|].
  split; [apply NoDup_fst_map_to_list|].
  split; [apply NoDup_fst_map_to_list|].
  split; [by rewrite length_map_to_list|].
  split; [by rewrite length_map_to_list|].
  split; [intros id i; by rewrite elem_of_map_to_list|].
  split; [intros id i; by rewrite elem_of_map_to_list|].
  intros Hd.
  assert (forall t : Matrix, shaped (embeddingSize M) t ->
            tf_array t = (fun row : list float32 => widen <$> row) <$> t)
    as Harr.
  { intros [|row t] Ht; [done|]. simpl.
    apply Forall_cons in Ht as [-> _].
    destruct (embeddingSize M); [lia|done]. }
  rewrite !Harr by done. rewrite !length_fmap.
  unfold Storage.getAllUsers, Storage.getAllEntities in *.
  split; [done|]. split; [done|].
  split; apply Forall_fmap;
    (eapply Forall_impl; [eassumption|]);
    intros row Hrow; simpl; by rewrite length_fmap.
Qed.

Lemma export_document_coherent_witness :
  (consistent (this sample_world1)
   /\ _initialized (this sample_world1) = true)
  /\ exists D,
       export (this sample_world1) = Return D
       /\ length (sm_userMap D) = length (sm_reverseUserMap D)
       /\ length (sm_userEmbeddings D) = length (sm_reverseUserMap D).
Proof.
  destruct sample_world1_matrices as (H1 & _).
  split; [exact (conj sample_world1_consistent H1)|].
  destruct (export_document_coherent (this sample_world1)
              sample_world1_consistent H1)
    as (D & HD & _ & _ & _ & Hlen & _ & _ & _ & Hrows).
  exists D. split; [exact HD|]. split; [exact Hlen|].
  apply Hrows. vm_compute. lia.
Defined.
